(** * BLE Sync Cycle: the sensor pipeline and its orchestration

    A shallow embedding of [internal/ble/sensor_controller.go] (package [ble])
    and of the application entry point (package [main]), with the properties
    of the CSC decoder, the peripheral resolver, the notification monitor and
    the orchestrator.

    Layout: the Go run-time notions the code relies on ([Go]), the two
    packages ([ble], [main]), the CSC measurement layout in the profile's
    words ([Csc]), then the lemmas. *)

From Stdlib Require Import ZArith List String Bool Lia.
From Stdlib.Strings Require Import Byte.
From Stdlib Require Import PrimFloat Uint63.
Import ListNotations.

Set Warnings "-inexact-float".
Local Open Scope string_scope.
Local Open Scope Z_scope.

(* ================================================================== *)
(** ** Go run-time notions used by the code *)

Module Go.

(** Error values.  [ErrorsNew] is [errors.New]; the two context errors are
    what [ctx.Err()] yields; [Foreign] stands for an error made by a library
    outside the repository (the Bluetooth stack, the video player). *)
Inductive error : Type :=
| ErrorsNew (text : string)
| ContextCanceled
| ContextDeadlineExceeded
| Foreign (text : string).

(** [err.Error()] *)
Definition Error (e : error) : string :=
  match e with
  | ErrorsNew t => t
  | ContextCanceled => "context canceled"
  | ContextDeadlineExceeded => "context deadline exceeded"
  | Foreign t => t
  end.

(** A call returns, panics (index or slice bound violated), or is still
    suspended at a receive or a select none of whose cases is ready. *)
Inductive outcome (A : Type) : Type :=
| Returns (a : A)
| Panics (why : string)
| Blocks.
Arguments Returns {A} a.
Arguments Panics {A} why.
Arguments Blocks {A}.

Definition bind {A B} (c : outcome A) (k : A -> outcome B) : outcome B :=
  match c with
  | Returns a => k a
  | Panics why => Panics why
  | Blocks => Blocks
  end.

(** Conversions to the fixed-width integer types: the low bits are kept. *)
Definition to_uint16 (z : Z) : Z := Z.land z 0xFFFF.
Definition to_uint32 (z : Z) : Z := Z.land z 0xFFFFFFFF.

(** [int32(u)] for a [uint32] [u]: the same 32 bits read in two's complement. *)
Definition to_int32 (z : Z) : Z :=
  let u := to_uint32 z in
  if u <? 2 ^ 31 then u else u - 2 ^ 32.

Definition byte_val (b : byte) : Z := Z.of_N (Byte.to_N b).

(** [s[i]] *)
Definition index {A} (s : list A) (i : nat) : outcome A :=
  match nth_error s i with
  | Some a => Returns a
  | None => Panics "index out of range"
  end.

(** [s[i:]] *)
Definition slice_from {A} (s : list A) (i : nat) : outcome (list A) :=
  if (i <=? List.length s)%nat then Returns (skipn i s)
  else Panics "slice bounds out of range".

(** [float64(n)] for an integer [n] of at most 64 bits (round to nearest). *)
Definition float64_of_Z (z : Z) : float :=
  if z =? - 2 ^ 63 then (-0x1p+63)%float
  else if z <? 0 then PrimFloat.opp (PrimFloat.of_uint63 (Uint63.of_Z (- z)))
  else PrimFloat.of_uint63 (Uint63.of_Z z).

(** A context as the code observes it: [Err] is [None] until the context is
    done. *)
Record context : Type := { Err : option error }.

Definition Background : context := {| Err := None |}.
Definition canceled : context := {| Err := Some ContextCanceled |}.

(** [context.WithTimeout(parent, d)], observed at an instant at which the
    duration [d] has ([elapsed = true]) or has not run out: the child is done
    as soon as the parent is, and otherwise when the timer fires. *)
Definition WithTimeout (parent : context) (elapsed : bool) : context :=
  match Err parent with
  | Some e => {| Err := Some e |}
  | None => if elapsed then {| Err := Some ContextDeadlineExceeded |}
            else {| Err := None |}
  end.

Definition Done (c : context) : bool :=
  match Err c with Some _ => true | None => false end.

End Go.

Import Go.

Notation "x <- c ;; k" := (Go.bind c (fun x => k))
  (at level 61, c at next level, right associativity).
Notation "' p <- c ;; k" := (Go.bind c (fun x => let 'p := x in k))
  (at level 61, p pattern, c at next level, right associativity).

(** [encoding/binary]'s little-endian readers; each starts with the bounds
    check on its last byte. *)
Module LittleEndian.

Definition Uint16 (b : list byte) : outcome Z :=
  _ <- index b 1 ;;
  b0 <- index b 0 ;;
  b1 <- index b 1 ;;
  Returns (Z.lor (byte_val b0) (Z.shiftl (byte_val b1) 8)).

Definition Uint32 (b : list byte) : outcome Z :=
  _ <- index b 3 ;;
  b0 <- index b 0 ;;
  b1 <- index b 1 ;;
  b2 <- index b 2 ;;
  b3 <- index b 3 ;;
  Returns (Z.lor (Z.lor (Z.lor (byte_val b0) (Z.shiftl (byte_val b1) 8))
                        (Z.shiftl (byte_val b2) 16))
                 (Z.shiftl (byte_val b3) 24)).

End LittleEndian.

(* ================================================================== *)
(** ** Package [ble]: sensor_controller.go *)

Module ble.

(** Modelled from the spec: the configuration package, which declares
    [BLEConfig] and [SpeedConfig], is not among the source files.  The fields
    are those the controller reads, typed as the configuration surface gives
    them: the sensor's address (a string), the scan timeout (whole seconds),
    the wheel circumference in millimetres (an integer, which the decoder
    converts with [float64(...)]) and the speed units (a string). *)
Record BLEConfig : Type := {
  SensorUUID : string;
  ScanTimeoutSecs : Z
}.

Record SpeedConfig : Type := {
  WheelCircumferenceMM : Z;
  SpeedUnits : string
}.

(** Values of the Bluetooth library, as far as the controller looks at them. *)
Record ScanResult : Type := { Address : string }.
Record DeviceCharacteristic : Type := { charUUID : Z }.
Record DeviceService : Type := { svcUUID : Z }.
Record Device : Type := { devAddress : string }.

Definition New16BitUUID (short : Z) : Z := short.

(** A log line: level, the literal text, and the value appended to it (its
    rendering belongs to the library that owns the value; a speed is printed
    rounded to two decimals). *)
Inductive level : Type := INFO | WARN | ERROR.
Inductive appended : Type :=
| NoValue
| Text (s : string)
| Uuid (u : Z)
| Speed (v : float) (units : string).
Record LogEntry : Type := { lvl : level; text : string; value : appended }.

(** Everything the package's functions read or write besides their
    arguments: the two package-level variables [lastWheelRevs] and
    [lastWheelTime], the log, the adapter's scanning flag, and the samples
    handed to the speed controller with [UpdateSpeed], oldest first. *)
Record world : Type := {
  lastWheelRevs : Z;
  lastWheelTime : Z;
  logged : list LogEntry;
  scanning : bool;
  speedUpdates : list float
}.

(** The package at program start: Go zero-initialises the two variables. *)
Definition start : world :=
  {| lastWheelRevs := 0; lastWheelTime := 0; logged := [];
     scanning := false; speedUpdates := [] |}.

Definition log (l : level) (t : string) (v : appended) (w : world) : world :=
  {| lastWheelRevs := lastWheelRevs w; lastWheelTime := lastWheelTime w;
     logged := logged w ++ [{| lvl := l; text := t; value := v |}];
     scanning := scanning w; speedUpdates := speedUpdates w |}.

(** [lastWheelRevs = revs; lastWheelTime = time] *)
Definition setLast (revs time : Z) (w : world) : world :=
  {| lastWheelRevs := revs; lastWheelTime := time;
     logged := logged w; scanning := scanning w;
     speedUpdates := speedUpdates w |}.

Definition setScanning (b : bool) (w : world) : world :=
  {| lastWheelRevs := lastWheelRevs w; lastWheelTime := lastWheelTime w;
     logged := logged w; scanning := b; speedUpdates := speedUpdates w |}.

(** Modelled from the spec: the speed package is not among the source files.
    [speedController.UpdateSpeed(v)] appends the sample [v]; of the
    controller only the sequence of samples handed to it is kept here. *)
Definition UpdateSpeed (v : float) (w : world) : world :=
  {| lastWheelRevs := lastWheelRevs w; lastWheelTime := lastWheelTime w;
     logged := logged w; scanning := scanning w;
     speedUpdates := speedUpdates w ++ [v] |}.

Record BLEController : Type := {
  bleConfig : BLEConfig;
  speedConfig : SpeedConfig
}.

(** [NewBLEController]: [enable] is what [bleAdapter.Enable()] returns. *)
Definition NewBLEController (bleCfg : BLEConfig) (speedCfg : SpeedConfig)
    (enable : option error) (w : world)
  : option BLEController * option error * world :=
  match enable with
  | Some err => (None, Some err, w)
  | None =>
      let w := log INFO "[BLE] Created new BLE central controller" NoValue w in
      (Some {| bleConfig := bleCfg; speedConfig := speedCfg |}, None, w)
  end.

(** [processBLESpeed]: raw CSC data in, current speed out. *)
Definition processBLESpeed (m : BLEController) (data : list byte) (w : world)
  : outcome (float * world) :=
  if (List.length data <? 1)%nat then Returns (0%float, w)
  else
    let w := log INFO "[SPEED] Processing speed data from BLE peripheral..." NoValue w in
    flags <- index data 0 ;;
    let hasWheelRev := negb (Z.land (byte_val flags) 0x01 =? 0) in
    if negb hasWheelRev || (List.length data <? 7)%nat then Returns (0%float, w)
    else
      from1 <- slice_from data 1 ;;
      wheelRevs <- LittleEndian.Uint32 from1 ;;
      from5 <- slice_from data 5 ;;
      wheelEventTime <- LittleEndian.Uint16 from5 ;;
      if lastWheelTime w =? 0 then
        Returns (0%float, setLast wheelRevs wheelEventTime w)
      else
        let timeDiff := to_uint16 (wheelEventTime - lastWheelTime w) in
        if timeDiff =? 0 then Returns (0%float, w)
        else
          let revDiff := to_int32 (wheelRevs - lastWheelRevs w) in
          let speedConversion :=
            if String.eqb (SpeedUnits (speedConfig m)) "mph"
            then 2.23694%float else 3.6%float in
          let speed :=
            (float64_of_Z revDiff
             * float64_of_Z (WheelCircumferenceMM (speedConfig m))
             * speedConversion / float64_of_Z timeDiff)%float in
          let w := log INFO "[SPEED] BLE sensor speed: "
                      (Speed speed (SpeedUnits (speedConfig m))) w in
          Returns (speed, setLast wheelRevs wheelEventTime w).

(** What the Bluetooth stack answers during one resolution: the
    advertisements handed to the scan callback (in order, up to the moment
    the select in [scanForBLEPeripheral] completes), and the results of the
    library calls. *)
Record bluetooth : Type := {
  Scan : option error;
  adverts : list ScanResult;
  StopScan : option error;
  Connect : string -> Device * option error;
  DiscoverServices : Device -> list Z -> list DeviceService * option error;
  DiscoverCharacteristics :
    DeviceService -> list Z -> list DeviceCharacteristic * option error
}.

(** [if err := m.bleAdapter.StopScan(); err != nil { log }] *)
Definition stopScan (bt : bluetooth) (l : level) (w : world) : world :=
  match StopScan bt with
  | Some err => log l "[BLE] Failed to stop scan: " (Text (Error err)) w
  | None => setScanning false w
  end.

(** The scanning goroutine: the callback compares each advertisement's
    address with the configured one; on the first match it stops the scan
    and sends the result on [found]. *)
Definition scanGoroutine (m : BLEController) (bt : bluetooth) (w : world)
  : option ScanResult * world :=
  let w := log INFO "[BLE] Now scanning the ether for BLE peripheral UUID of "
             (Text (SensorUUID (bleConfig m) ++ "...")) w in
  match Scan bt with
  | Some err => (None, log ERROR "[BLE] Scan error: " (Text (Error err)) w)
  | None =>
      let w := setScanning true w in
      match find (fun result => String.eqb (Address result) (SensorUUID (bleConfig m)))
                 (adverts bt) with
      | Some result => (Some result, stopScan bt ERROR w)
      | None => (None, w)
      end
  end.

(** The two cases of the select; [pick] is the run-time's choice when both
    are ready. *)
Inductive selectCase : Type := caseFound | caseDone.

(** [scanForBLEPeripheral]: [ctx] is the caller's context and [elapsed]
    tells whether [ScanTimeoutSecs] have run out, both at the moment the
    select completes. *)
Definition scanForBLEPeripheral (m : BLEController) (ctx : context)
    (elapsed : bool) (pick : selectCase) (bt : bluetooth) (w : world)
  : outcome (ScanResult * option error * world) :=
  let scanCtx := WithTimeout ctx elapsed in
  let '(found, w) := scanGoroutine m bt w in
  let onFound (result : ScanResult) :=
    Returns (result, None,
             log INFO "[BLE] Found BLE peripheral " (Text (Address result)) w) in
  let onDone :=
    Returns ({| Address := "" |}, Some (ErrorsNew "scanning time limit reached"),
             stopScan bt INFO w) in
  match found, Done scanCtx with
  | Some result, false => onFound result
  | None, true => onDone
  | Some result, true =>
      match pick with caseFound => onFound result | caseDone => onDone end
  | None, false => Blocks
  end.

(** [GetBLECharacteristic] *)
Definition GetBLECharacteristic (m : BLEController) (ctx : context)
    (elapsed : bool) (pick : selectCase) (bt : bluetooth) (w : world)
  : outcome (option DeviceCharacteristic * option error * world) :=
  '(result, err, w) <- scanForBLEPeripheral m ctx elapsed pick bt w ;;
  match err with
  | Some err => Returns (None, Some err, w)
  | None =>
  let w := log INFO "[BLE] Connecting to BLE peripheral device "
             (Text (Address result)) w in
  let '(device, err) := Connect bt (Address result) in
  match err with
  | Some err => Returns (None, Some err, w)
  | None =>
  let w := log INFO "[BLE] BLE peripheral device connected" NoValue w in
  let w := log INFO "[BLE] Discovering CSC services " (Uuid (New16BitUUID 0x1816)) w in
  let '(svc, err) := DiscoverServices bt device [New16BitUUID 0x1816] in
  match err with
  | Some err =>
      Returns (None, Some err,
               log WARN "[BLE] CSC services discovery failed: " (Text (Error err)) w)
  | None =>
  svc0 <- index svc 0 ;;
  let w := log INFO "[BLE] Found CSC service " (Uuid (svcUUID svc0)) w in
  let w := log INFO "[BLE] Discovering CSC characteristics "
             (Uuid (New16BitUUID 0x2A5B)) w in
  svc0 <- index svc 0 ;;
  let '(char, err) := DiscoverCharacteristics bt svc0 [New16BitUUID 0x2A5B] in
  match err with
  | Some err =>
      Returns (None, Some err,
               log WARN "[BLE] CSC characteristics discovery failed: "
                 (Text (Error err)) w)
  | None =>
  char0 <- index char 0 ;;
  let w := log INFO "[BLE] Found CSC characteristic " (Uuid (charUUID char0)) w in
  char0 <- index char 0 ;;
  Returns (Some char0, None, w)
  end end end end.

(** What can happen while [GetBLEUpdates] is suspended in [<-ctx.Done()]:
    the stack delivers a notification to the callback, the connection to the
    peripheral is lost, or the context is cancelled. *)
Inductive event : Type :=
| Notification (buf : list byte)
| ConnectionLost
| CtxCancelled.

(** The callback given to [EnableNotifications], and the wait that follows.
    The function has no statement that looks at the connection. *)
Fixpoint awaitDone (m : BLEController) (events : list event) (w : world)
  : outcome (option error * world) :=
  match events with
  | [] => Blocks
  | CtxCancelled :: _ => Returns (None, w)
  | ConnectionLost :: rest => awaitDone m rest w
  | Notification buf :: rest =>
      '(speed, w) <- processBLESpeed m buf w ;;
      awaitDone m rest (UpdateSpeed speed w)
  end.

(** [GetBLEUpdates]: [enable] is what [char.EnableNotifications] returns. *)
Definition GetBLEUpdates (m : BLEController) (enable : option error)
    (events : list event) (w : world) : outcome (option error * world) :=
  let w := log INFO "[BLE] Starting real-time monitoring of BLE sensor notifications..."
             NoValue w in
  match enable with
  | Some err => Returns (Some err, w)
  | None => awaitDone m events w
  end.

End ble.

(* ================================================================== *)
(** ** Package [main]: startAppControllers and its two goroutines *)

Module main.

(** Modelled from the spec: the logging package, which declares
    [ComponentType], is not among the source files; [APP], [BLE] and [VIDEO]
    are the three constants [startAppControllers] returns. *)
Inductive ComponentType : Type := APP | BLE | VIDEO.

Record componentErr : Type := {
  componentType : ComponentType;
  err : option error
}.

(** Where a goroutine started by [startAppControllers] stands. *)
Inductive goroutine : Type :=
| Idle                          (* not started *)
| Subscribing                   (* monitor: in EnableNotifications *)
| AwaitingDone                  (* monitor: in <-ctx.Done() *)
| Playing                       (* player: inside videoPlayer.Start *)
| Sending (ce : componentErr)   (* at errs <- ce *)
| Finished.

(** Where [startAppControllers] itself stands. *)
Inductive caller : Type :=
| Resolving
| Selecting
| Returned (c : ComponentType) (e : option error).

Record state : Type := {
  ctx : context;                (* the context made by signal.NotifyContext *)
  errs : list componentErr;     (* contents of the channel, oldest first *)
  monitor : goroutine;
  player : goroutine;
  orchestrator : caller
}.

(** [make(chan componentErr, 1)] *)
Definition capacity : nat := 1.

Definition init : state :=
  {| ctx := Background; errs := []; monitor := Idle; player := Idle;
     orchestrator := Resolving |}.

(** The moves of the system: of its environment (a signal, the results of
    the library calls) and of the scheduler (which goroutine runs next, which
    ready case a select takes).  The player's [Start] belongs to the
    video-player package, outside these files: [PlayerReturn] lets it return
    nil or an error at any moment, which covers whatever it does. *)
Inductive label : Type :=
| Signal                          (* interrupt, SIGTERM, or the root context cancelled *)
| Resolved (r : option error)     (* scanForBLESpeedCharacteristic returns *)
| Subscribe (r : option error)    (* EnableNotifications returns in GetBLEUpdates *)
| MonitorDone                     (* GetBLEUpdates passes <-ctx.Done(), returns nil *)
| MonitorSend                     (* the monitor goroutine's send on errs completes *)
| PlayerReturn (r : option error) (* playVideo returns *)
| PlayerSend                      (* the player goroutine's send on errs completes *)
| SelectDone                      (* the select takes case <-ctx.Done() *)
| SelectErrs.                     (* the select takes case compErr := <-errs *)

Definition cancel (c : context) : context :=
  match Err c with Some _ => c | None => canceled end.

(** [return c, e] from [startAppControllers]: the deferred [stop()] runs,
    which cancels the context. *)
Definition ret (c : ComponentType) (e : option error) (s : state) : state :=
  {| ctx := cancel (ctx s); errs := errs s; monitor := monitor s;
     player := player s; orchestrator := Returned c e |}.

Definition setCtx (c : context) (s : state) : state :=
  {| ctx := c; errs := errs s; monitor := monitor s; player := player s;
     orchestrator := orchestrator s |}.
Definition setErrs (q : list componentErr) (s : state) : state :=
  {| ctx := ctx s; errs := q; monitor := monitor s; player := player s;
     orchestrator := orchestrator s |}.
Definition setMonitor (g : goroutine) (s : state) : state :=
  {| ctx := ctx s; errs := errs s; monitor := g; player := player s;
     orchestrator := orchestrator s |}.
Definition setPlayer (g : goroutine) (s : state) : state :=
  {| ctx := ctx s; errs := errs s; monitor := monitor s; player := g;
     orchestrator := orchestrator s |}.
Definition setOrchestrator (o : caller) (s : state) : state :=
  {| ctx := ctx s; errs := errs s; monitor := monitor s; player := player s;
     orchestrator := o |}.

(** [errs <- ce]: possible while the buffer has room. *)
Definition send (ce : componentErr) (s : state) : option state :=
  if (List.length (errs s) <? capacity)%nat
  then Some (setErrs (errs s ++ [ce]) s) else None.

(** One move; [None] when the move is not possible in [s].  A goroutine
    sends the result of its call, error or nil, and ends.  The select returns
    the context's error on [ctx.Done()]; on a completion it returns the
    component and its error when there is one, and ([APP], nil) otherwise. *)
Definition step (l : label) (s : state) : option state :=
  match l with
  | Signal =>
      match Err (ctx s) with
      | None => Some (setCtx canceled s)
      | Some _ => None
      end
  | Resolved r =>
      match orchestrator s with
      | Resolving =>
          match r with
          | Some e =>
              Some (ret BLE
                      (Some (ErrorsNew ("BLE peripheral scan failed: " ++ Error e))) s)
          | None =>
              Some (setOrchestrator Selecting
                      (setPlayer Playing (setMonitor Subscribing s)))
          end
      | _ => None
      end
  | Subscribe r =>
      match monitor s with
      | Subscribing =>
          match r with
          | Some e =>
              Some (setMonitor
                      (Sending {| componentType := BLE; err := Some e |}) s)
          | None => Some (setMonitor AwaitingDone s)
          end
      | _ => None
      end
  | MonitorDone =>
      match monitor s with
      | AwaitingDone =>
          if Done (ctx s)
          then Some (setMonitor (Sending {| componentType := BLE; err := None |}) s)
          else None
      | _ => None
      end
  | MonitorSend =>
      match monitor s with
      | Sending ce => option_map (setMonitor Finished) (send ce s)
      | _ => None
      end
  | PlayerReturn r =>
      match player s with
      | Playing =>
          Some (setPlayer (Sending {| componentType := VIDEO; err := r |}) s)
      | _ => None
      end
  | PlayerSend =>
      match player s with
      | Sending ce => option_map (setPlayer Finished) (send ce s)
      | _ => None
      end
  | SelectDone =>
      match orchestrator s, Err (ctx s) with
      | Selecting, Some e => Some (ret APP (Some e) s)
      | _, _ => None
      end
  | SelectErrs =>
      match orchestrator s, errs s with
      | Selecting, compErr :: rest =>
          match err compErr with
          | Some e => Some (ret (componentType compErr) (Some e) (setErrs rest s))
          | None => Some (ret APP None (setErrs rest s))
          end
      | _, _ => None
      end
  end.

(** A schedule run from a state; [None] when a move is not possible. *)
Fixpoint run (schedule : list label) (s : state) : option state :=
  match schedule with
  | [] => Some s
  | l :: rest =>
      match step l s with
      | Some s' => run rest s'
      | None => None
      end
  end.

End main.

(* ================================================================== *)
(** ** The CSC measurement layout, in the profile's words *)

Module Csc.

(** Byte 0 holds the flags, bit 0 of which announces wheel-revolution data;
    bytes 1-4 are the cumulative wheel revolutions and bytes 5-6 the last
    wheel event time, both unsigned and little-endian.  [sample] is the pair
    (revolutions, event time) of a payload that carries wheel data. *)
Definition sample (payload : list byte) : option (Z * Z) :=
  match payload with
  | flags :: r0 :: r1 :: r2 :: r3 :: t0 :: t1 :: _ =>
      if Z.testbit (byte_val flags) 0 then
        Some (byte_val r0 + 2 ^ 8 * byte_val r1 + 2 ^ 16 * byte_val r2
              + 2 ^ 24 * byte_val r3,
              byte_val t0 + 2 ^ 8 * byte_val t1)
      else None
  | _ => None
  end.

(** The speed formula, on 64-bit floats and evaluated left to right:
    revDiff * wheelCircumferenceMM * conversionFactor / timeDiff. *)
Definition speed (revDiff wheelCircumferenceMM : Z) (conversionFactor : float)
    (timeDiff : Z) : float :=
  (float64_of_Z revDiff * float64_of_Z wheelCircumferenceMM
   * conversionFactor / float64_of_Z timeDiff)%float.

End Csc.

Import ble.

(* ================================================================== *)
(** ** Fixed-width arithmetic *)

Section Arithmetic.

Lemma byte_val_range (b : byte) : 0 <= byte_val b < 256.
Proof.
  unfold byte_val. pose proof (Byte.to_N_bounded b). lia.
Qed.

Lemma to_uint16_mod (z : Z) : to_uint16 z = z mod 65536.
Proof.
  unfold to_uint16. change 0xFFFF with (Z.ones 16).
  rewrite Z.land_ones by lia. reflexivity.
Qed.

Lemma to_uint32_mod (z : Z) : to_uint32 z = z mod 4294967296.
Proof.
  unfold to_uint32. change 0xFFFFFFFF with (Z.ones 32).
  rewrite Z.land_ones by lia. reflexivity.
Qed.

Lemma to_int32_range (z : Z) : - 2 ^ 31 <= to_int32 z < 2 ^ 31.
Proof.
  unfold to_int32. rewrite to_uint32_mod.
  pose proof (Z.mod_pos_bound z 4294967296 ltac:(lia)).
  destruct (Z.ltb_spec (z mod 4294967296) (2 ^ 31)); lia.
Qed.

(** The signed reading differs from the true difference by a multiple of
    2^32, and is the true difference whenever that fits in 32 signed bits. *)
Lemma to_int32_small (z : Z) : - 2 ^ 31 <= z < 2 ^ 31 -> to_int32 z = z.
Proof.
  intros Hz. unfold to_int32. rewrite to_uint32_mod.
  destruct (Z.ltb_spec (z mod 4294967296) (2 ^ 31)) as [Hlt | Hge].
  - destruct (Z.neg_nonneg_cases z) as [Hneg | Hpos].
    + assert (z mod 4294967296 = z + 4294967296)
        by (symmetry; apply Z.mod_unique with (q := -1); lia).
      lia.
    + apply Z.mod_small. lia.
  - destruct (Z.neg_nonneg_cases z) as [Hneg | Hpos].
    + assert (z mod 4294967296 = z + 4294967296)
        by (symmetry; apply Z.mod_unique with (q := -1); lia).
      lia.
    + rewrite Z.mod_small in Hge by lia. lia.
Qed.

(** Or-ing in a value shifted past the bits of [a] adds it. *)
Lemma lor_shiftl_add (a b k : Z) :
  0 <= k -> 0 <= a < 2 ^ k -> Z.lor a (Z.shiftl b k) = a + 2 ^ k * b.
Proof.
  intros Hk Ha.
  assert (Hdisj : Z.land a (Z.shiftl b k) = 0).
  { apply Z.bits_inj'. intros n Hn.
    rewrite Z.land_spec, Z.bits_0.
    destruct (Z.lt_ge_cases n k) as [Hlt | Hge].
    - rewrite (Z.shiftl_spec_low b k n Hlt). apply andb_false_r.
    - assert (Z.testbit a n = false) as ->; [ | reflexivity ].
      destruct (Z.eq_dec a 0) as [-> | Hnz]; [ apply Z.bits_0 | ].
      apply Z.bits_above_log2; [ lia | ].
      apply Z.lt_le_trans with k; [ | exact Hge ].
      apply Z.log2_lt_pow2; lia. }
  rewrite <- Z.lxor_lor by exact Hdisj.
  rewrite <- Z.add_nocarry_lxor by exact Hdisj.
  rewrite Z.shiftl_mul_pow2 by exact Hk. lia.
Qed.

Lemma timeDiff_zero_iff (cur prev : Z) :
  0 <= cur < 65536 -> 0 <= prev < 65536 ->
  (to_uint16 (cur - prev) = 0 <-> cur = prev).
Proof.
  intros Hc Hp. rewrite to_uint16_mod. split.
  - intros H. destruct (Z.le_gt_cases prev cur).
    + rewrite Z.mod_small in H by lia. lia.
    + assert ((cur - prev) mod 65536 = cur - prev + 65536)
        by (symmetry; apply Z.mod_unique with (q := -1); lia).
      lia.
  - intros ->. rewrite Z.sub_diag. reflexivity.
Qed.

End Arithmetic.

(* ================================================================== *)
(** ** Reading a payload *)

Section Payload.

Lemma Some_pair_inj {A B} (a a' : A) (b b' : B) :
  Some (a, b) = Some (a', b') -> a = a' /\ b = b'.
Proof. intros H. inversion H. split; reflexivity. Qed.

Lemma Uint16_cons (b0 b1 : byte) (rest : list byte) :
  LittleEndian.Uint16 (b0 :: b1 :: rest)
  = Returns (byte_val b0 + 2 ^ 8 * byte_val b1).
Proof.
  unfold LittleEndian.Uint16, index, Go.bind. cbn [nth_error].
  rewrite lor_shiftl_add by (pose proof (byte_val_range b0); lia).
  reflexivity.
Qed.

Lemma Uint32_cons (b0 b1 b2 b3 : byte) (rest : list byte) :
  LittleEndian.Uint32 (b0 :: b1 :: b2 :: b3 :: rest)
  = Returns (byte_val b0 + 2 ^ 8 * byte_val b1 + 2 ^ 16 * byte_val b2
             + 2 ^ 24 * byte_val b3).
Proof.
  unfold LittleEndian.Uint32, index, Go.bind. cbn [nth_error].
  pose proof (byte_val_range b0). pose proof (byte_val_range b1).
  pose proof (byte_val_range b2).
  rewrite (lor_shiftl_add (byte_val b0)) by lia.
  rewrite (lor_shiftl_add _ (byte_val b2)) by lia.
  rewrite (lor_shiftl_add _ (byte_val b3)) by lia.
  reflexivity.
Qed.

Lemma flag_bit0 (z : Z) : (Z.land z 0x01 =? 0) = negb (Z.testbit z 0).
Proof.
  change 0x01 with (Z.ones 1). rewrite Z.land_ones by lia.
  rewrite <- Z.bit0_mod. destruct (Z.testbit z 0); reflexivity.
Qed.

Lemma sample_range (data : list byte) (revs time : Z) :
  Csc.sample data = Some (revs, time) ->
  0 <= revs < 2 ^ 32 /\ 0 <= time < 2 ^ 16.
Proof.
  destruct data as [|f [|r0 [|r1 [|r2 [|r3 [|t0 [|t1 rest]]]]]]];
    cbn [Csc.sample]; try discriminate.
  destruct (Z.testbit (byte_val f) 0); [ | discriminate ].
  intros H; apply Some_pair_inj in H; destruct H as [<- <-].
  pose proof (byte_val_range r0). pose proof (byte_val_range r1).
  pose proof (byte_val_range r2). pose proof (byte_val_range r3).
  pose proof (byte_val_range t0). pose proof (byte_val_range t1).
  lia.
Qed.

Lemma sample_length (data : list byte) (revs time : Z) :
  Csc.sample data = Some (revs, time) -> (7 <= List.length data)%nat.
Proof.
  destruct data as [|f [|r0 [|r1 [|r2 [|r3 [|t0 [|t1 rest]]]]]]];
    cbn [Csc.sample]; try discriminate.
  intros _. cbn [List.length]. lia.
Qed.

(** A payload carries no sample exactly when the decoder's two guards send
    it away: fewer than seven bytes, or bit 0 of the flags clear. *)
Lemma sample_none (data : list byte) :
  Csc.sample data = None <->
  (List.length data < 7)%nat \/
  (exists f rest, data = f :: rest /\ Z.testbit (byte_val f) 0 = false).
Proof.
  destruct data as [|f [|r0 [|r1 [|r2 [|r3 [|t0 [|t1 rest]]]]]]];
    cbn [Csc.sample List.length];
    try (split; [ intros _; left; lia | reflexivity ]).
  destruct (Z.testbit (byte_val f) 0) eqn:Hbit; split.
  - discriminate.
  - intros [Hlen | (f' & rest' & Heq & Hf)]; [ lia | ].
    injection Heq as -> _. congruence.
  - intros _. right. eauto.
  - reflexivity.
Qed.

End Payload.

(* ================================================================== *)
(** ** The decoder, case by case *)

Section Decoder.

Variable m : BLEController.

Let units : string := SpeedUnits (speedConfig m).
Let circumference : Z := WheelCircumferenceMM (speedConfig m).

Definition processing (w : world) : world :=
  log INFO "[SPEED] Processing speed data from BLE peripheral..." NoValue w.

Definition reported (v : float) (units : string) (w : world) : world :=
  log INFO "[SPEED] BLE sensor speed: " (Speed v units) w.

(** What [processBLESpeed] returns on a payload that carries a sample. *)
Lemma processBLESpeed_sample (data : list byte) (w : world) (revs time : Z) :
  Csc.sample data = Some (revs, time) ->
  processBLESpeed m data w =
  Returns
    (if lastWheelTime w =? 0 then
       (0%float, setLast revs time (processing w))
     else if to_uint16 (time - lastWheelTime w) =? 0 then
       (0%float, processing w)
     else
       let v := Csc.speed (to_int32 (revs - lastWheelRevs w)) circumference
                  (if String.eqb units "mph" then 2.23694%float else 3.6%float)
                  (to_uint16 (time - lastWheelTime w)) in
       (v, setLast revs time (reported v units (processing w)))).
Proof.
  destruct data as [|f [|r0 [|r1 [|r2 [|r3 [|t0 [|t1 rest]]]]]]];
    cbn [Csc.sample]; try discriminate.
  destruct (Z.testbit (byte_val f) 0) eqn:Hbit; [ | discriminate ].
  intros H; apply Some_pair_inj in H; destruct H as [<- <-].
  unfold processBLESpeed.
  cbn [List.length Nat.ltb Nat.leb index nth_error Go.bind slice_from skipn].
  rewrite flag_bit0, Hbit.
  cbn [negb orb Go.bind].
  rewrite Uint32_cons, Uint16_cons.
  cbn [Go.bind].
  change (lastWheelTime (log _ _ _ w)) with (lastWheelTime w).
  destruct (lastWheelTime w =? 0); [ reflexivity | ].
  destruct (to_uint16 _ =? 0); reflexivity.
Qed.

(** ... and on any other payload: speed 0, the two variables untouched. *)
Lemma processBLESpeed_no_sample (data : list byte) (w : world) :
  Csc.sample data = None ->
  processBLESpeed m data w =
  Returns (0%float, match data with [] => w | _ :: _ => processing w end).
Proof.
  intros Hnone. destruct data as [|f rest]; [ reflexivity | ].
  unfold processBLESpeed.
  change (List.length (f :: rest) <? 1)%nat with false.
  cbn [index nth_error Go.bind].
  rewrite flag_bit0.
  destruct (Z.testbit (byte_val f) 0) eqn:Hbit; cbn [negb orb].
  - apply sample_none in Hnone.
    destruct Hnone as [Hlen | (f' & rest' & Heq & Hclear)].
    + apply Nat.ltb_lt in Hlen. rewrite Hlen. reflexivity.
    + injection Heq as -> _. congruence.
  - reflexivity.
Qed.

(** The decoder always returns: its index and slice expressions are guarded
    by the length test. *)
Lemma processBLESpeed_returns (data : list byte) (w : world) :
  exists v w', processBLESpeed m data w = Returns (v, w').
Proof.
  destruct (Csc.sample data) as [[revs time]|] eqn:Hs.
  - rewrite (processBLESpeed_sample data w revs time Hs).
    destruct (lastWheelTime w =? 0); [ eauto | ].
    destruct (to_uint16 _ =? 0); eauto.
  - rewrite (processBLESpeed_no_sample data w Hs). eauto.
Qed.

End Decoder.

(** The two package-level variables hold a [uint32] and a [uint16]. *)
Definition wellTyped (w : world) : Prop :=
  0 <= lastWheelRevs w < 2 ^ 32 /\ 0 <= lastWheelTime w < 2 ^ 16.

Lemma start_wellTyped : wellTyped start.
Proof. unfold wellTyped, start; cbn. lia. Qed.

Lemma processBLESpeed_wellTyped (m : BLEController) (data : list byte)
    (w w' : world) (v : float) :
  wellTyped w -> processBLESpeed m data w = Returns (v, w') -> wellTyped w'.
Proof.
  intros Hw. destruct (Csc.sample data) as [[revs time]|] eqn:Hs.
  - rewrite (processBLESpeed_sample m data w revs time Hs).
    pose proof (sample_range data revs time Hs) as Hr.
    destruct (lastWheelTime w =? 0).
    + intros H; injection H as _ <-. exact Hr.
    + destruct (to_uint16 _ =? 0); intros H; injection H as _ <-;
        [ exact Hw | exact Hr ].
  - rewrite (processBLESpeed_no_sample m data w Hs).
    destruct data; intros H; injection H as _ <-; exact Hw.
Qed.

(* ================================================================== *)
(** ** Sample data *)

Definition sensor : BLEConfig :=
  {| SensorUUID := "F1:42:D8:DE:35:16"; ScanTimeoutSecs := 30 |}.

(** A 2105 mm wheel, reported in km/h or in mph. *)
Definition kmh : BLEController :=
  {| bleConfig := sensor;
     speedConfig := {| WheelCircumferenceMM := 2105; SpeedUnits := "km/h" |} |}.
Definition mph : BLEController :=
  {| bleConfig := sensor;
     speedConfig := {| WheelCircumferenceMM := 2105; SpeedUnits := "mph" |} |}.

(** Notifications with the wheel bit set: (revolutions, event time). *)
Definition rev1000_t1024 : list byte := [x01; xe8; x03; x00; x00; x00; x04].
Definition rev1001_t2048 : list byte := [x01; xe9; x03; x00; x00; x00; x08].
Definition rev999_t2048 : list byte := [x01; xe7; x03; x00; x00; x00; x08].
Definition rev1002_t1024 : list byte := [x01; xea; x03; x00; x00; x00; x04].
Definition rev1000_t65531 : list byte := [x01; xe8; x03; x00; x00; xfb; xff].
Definition rev1001_t5 : list byte := [x01; xe9; x03; x00; x00; x05; x00].
Definition rev1001_t0 : list byte := [x01; xe9; x03; x00; x00; x00; x00].
Definition rev1003_t512 : list byte := [x01; xeb; x03; x00; x00; x00; x02].

(** The speed a call of the decoder returned. *)
Definition speedOf (o : outcome (float * world)) : float :=
  match o with
  | Returns (v, _) => v
  | _ => 0%float
  end.

(** The package after one controller has decoded a notification. *)
Definition after (m : BLEController) (data : list byte) (w : world) : world :=
  match processBLESpeed m data w with
  | Returns (_, w') => w'
  | _ => w
  end.


(* ================================================================== *)
(** ** The decoder's rules *)

(** The baseline branch, shared by the rules below. *)
Lemma baseline_branch (m : BLEController) (data : list byte)
    (w : world) (revs time : Z) :
  Csc.sample data = Some (revs, time) ->
  lastWheelTime w = 0 ->
  processBLESpeed m data w
  = Returns (0%float, setLast revs time (processing w)) /\
  lastWheelRevs (setLast revs time (processing w)) = revs /\
  lastWheelTime (setLast revs time (processing w)) = time.
Proof.
  intros Hs Hzero.
  rewrite (processBLESpeed_sample m data w revs time Hs), Hzero.
  repeat split.
Qed.

(** C6.  Baseline rule: when [lastWheelTime] is 0 (no sample recorded yet),
    a payload that carries wheel data is decoded to speed 0, and the two
    variables take the payload's revolutions and event time. *)
Theorem first_sample_sets_baseline (m : BLEController) (data : list byte)
    (w : world) (revs time : Z) :
  Csc.sample data = Some (revs, time) ->
  lastWheelTime w = 0 ->
  exists w',
    processBLESpeed m data w = Returns (0%float, w') /\
    lastWheelRevs w' = revs /\ lastWheelTime w' = time /\
    w' = setLast revs time (processing w).
Proof.
  intros Hs Hzero.
  rewrite (processBLESpeed_sample m data w revs time Hs), Hzero.
  cbn [Z.eqb].
  eexists; repeat split.
Qed.

Lemma first_sample_sets_baseline_start :
  exists w',
    processBLESpeed kmh rev1000_t1024 start = Returns (0%float, w') /\
    lastWheelRevs w' = 1000 /\ lastWheelTime w' = 1024 /\
    w' = setLast 1000 1024 (processing start).
Proof.
  exact (first_sample_sets_baseline kmh rev1000_t1024 start 1000 1024
           eq_refl eq_refl).
Defined.

(** C3, as the code has it.  When the payload's event time equals the stored
    one (time delta 0) and a baseline exists, the decoder returns speed 0
    before the division, and leaves both variables as they were: the
    revolutions of the payload are not stored. *)
Theorem zero_time_delta_keeps_state (m : BLEController) (data : list byte)
    (w : world) (revs time : Z) :
  Csc.sample data = Some (revs, time) ->
  lastWheelTime w <> 0 ->
  time = lastWheelTime w ->
  exists w',
    processBLESpeed m data w = Returns (0%float, w') /\
    lastWheelRevs w' = lastWheelRevs w /\ lastWheelTime w' = lastWheelTime w /\
    w' = processing w.
Proof.
  intros Hs Hbase ->.
  rewrite (processBLESpeed_sample m data w revs _ Hs).
  apply Z.eqb_neq in Hbase. rewrite Hbase.
  rewrite Z.sub_diag. change (to_uint16 0 =? 0) with true.
  eexists; repeat split.
Qed.

Lemma zero_time_delta_keeps_state_example :
  exists w',
    processBLESpeed kmh rev1002_t1024 (after kmh rev1000_t1024 start)
    = Returns (0%float, w') /\
    lastWheelRevs w' = lastWheelRevs (after kmh rev1000_t1024 start) /\
    lastWheelTime w' = lastWheelTime (after kmh rev1000_t1024 start) /\
    w' = processing (after kmh rev1000_t1024 start).
Proof.
  apply (zero_time_delta_keeps_state kmh rev1002_t1024
           (after kmh rev1000_t1024 start) 1002 1024).
  - reflexivity.
  - vm_compute. discriminate.
  - reflexivity.
Defined.

(** C3 as worded fails: with the baseline (1000, 1024) stored, a payload
    (1002, 1024) is decoded to speed 0 but the stored revolutions stay 1000;
    they are not refreshed to 1002. *)
Lemma zero_time_delta_does_not_refresh :
  ~ (forall (m : BLEController) (data : list byte) (w : world) (revs time : Z),
        Csc.sample data = Some (revs, time) ->
        lastWheelTime w <> 0 ->
        time = lastWheelTime w ->
        exists w',
          processBLESpeed m data w = Returns (0%float, w') /\
          lastWheelRevs w' = revs /\ lastWheelTime w' = time).
Proof.
  intros claim.
  destruct (claim kmh rev1002_t1024 (after kmh rev1000_t1024 start) 1002 1024)
    as (w' & Hrun & Hrevs & _).
  - reflexivity.
  - vm_compute. discriminate.
  - reflexivity.
  - vm_compute in Hrun. injection Hrun as <-.
    vm_compute in Hrevs. discriminate.
Qed.

(** C4.  With a baseline stored, the time delta the decoder divides by is
    (event time - stored event time) mod 65536: it lies in [0, 65536), a
    delta of 0 gives speed 0 and any other delta is the divisor of the speed
    formula.  From 65531 to 5 the delta is 10. *)
Theorem time_delta_wraps_mod_65536 (m : BLEController) (data : list byte)
    (w : world) (revs time : Z) :
  Csc.sample data = Some (revs, time) ->
  lastWheelTime w <> 0 ->
  let timeDiff := (time - lastWheelTime w) mod 65536 in
  to_uint16 (time - lastWheelTime w) = timeDiff /\
  0 <= timeDiff < 65536 /\
  (exists w',
     processBLESpeed m data w =
     Returns (if timeDiff =? 0 then 0%float
              else Csc.speed (to_int32 (revs - lastWheelRevs w))
                     (WheelCircumferenceMM (speedConfig m))
                     (if String.eqb (SpeedUnits (speedConfig m)) "mph"
                      then 2.23694%float else 3.6%float)
                     timeDiff,
              w')) /\
  (lastWheelTime w = 65531 -> time = 5 -> timeDiff = 10).
Proof.
  intros Hs Hbase timeDiff.
  assert (Hmod : to_uint16 (time - lastWheelTime w) = timeDiff)
    by apply to_uint16_mod.
  split; [ exact Hmod | ].
  split; [ apply Z.mod_pos_bound; lia | ].
  split.
  - rewrite (processBLESpeed_sample m data w revs time Hs).
    apply Z.eqb_neq in Hbase. rewrite Hbase, Hmod.
    destruct (timeDiff =? 0); eexists; reflexivity.
  - intros Hprev Hcur. subst timeDiff. rewrite Hprev, Hcur. reflexivity.
Qed.

Lemma time_delta_wraps_65531_to_5 :
  let w := after kmh rev1000_t65531 start in
  let timeDiff := (5 - lastWheelTime w) mod 65536 in
  to_uint16 (5 - lastWheelTime w) = timeDiff /\
  0 <= timeDiff < 65536 /\
  (exists w',
     processBLESpeed kmh rev1001_t5 w =
     Returns (if timeDiff =? 0 then 0%float
              else Csc.speed (to_int32 (1001 - lastWheelRevs w))
                     (WheelCircumferenceMM (speedConfig kmh))
                     (if String.eqb (SpeedUnits (speedConfig kmh)) "mph"
                      then 2.23694%float else 3.6%float)
                     timeDiff,
              w')) /\
  (lastWheelTime w = 65531 -> 5 = 5 -> timeDiff = 10).
Proof.
  apply (time_delta_wraps_mod_65536 kmh rev1001_t5
           (after kmh rev1000_t65531 start) 1001 5).
  - reflexivity.
  - vm_compute. discriminate.
Defined.

(** C5.  With a baseline stored and a time delta other than 0, the speed
    returned is revDiff * wheelCircumferenceMM * factor / timeDiff in 64-bit
    floating point, with factor 3.6 for "km/h" and 2.23694 for "mph".
    revDiff is the 32-bit difference of the revolution counts read as a
    signed number: it is the plain difference whenever that fits, negative
    differences included, and nothing clamps it.  One revolution of a
    2105 mm wheel in 1024 ticks is 7.400390625 km/h, or 4.598... mph. *)
Theorem speed_formula (m : BLEController) (data : list byte) (w : world)
    (revs time : Z) :
  Csc.sample data = Some (revs, time) ->
  lastWheelTime w <> 0 ->
  (time - lastWheelTime w) mod 65536 <> 0 ->
  let revDiff := to_int32 (revs - lastWheelRevs w) in
  let timeDiff := (time - lastWheelTime w) mod 65536 in
  let circumference := WheelCircumferenceMM (speedConfig m) in
  (exists w',
     processBLESpeed m data w =
     Returns (Csc.speed revDiff circumference
                (if String.eqb (SpeedUnits (speedConfig m)) "mph"
                 then 2.23694%float else 3.6%float) timeDiff, w') /\
     lastWheelRevs w' = revs /\ lastWheelTime w' = time) /\
  (SpeedUnits (speedConfig m) = "km/h" ->
   exists w', processBLESpeed m data w =
              Returns (Csc.speed revDiff circumference 3.6%float timeDiff, w')) /\
  (SpeedUnits (speedConfig m) = "mph" ->
   exists w', processBLESpeed m data w =
              Returns (Csc.speed revDiff circumference 2.23694%float timeDiff, w')) /\
  (- 2 ^ 31 <= revs - lastWheelRevs w < 2 ^ 31 ->
   revDiff = revs - lastWheelRevs w) /\
  Csc.speed 1 2105 3.6%float 1024 = 7.400390625%float /\
  (PrimFloat.leb 4.595%float (Csc.speed 1 2105 2.23694%float 1024)
   && PrimFloat.ltb (Csc.speed 1 2105 2.23694%float 1024) 4.605%float = true) /\
  Csc.speed (-1) 2105 3.6%float 1024 = (-7.400390625)%float.
Proof.
  intros Hs Hbase Hdelta revDiff timeDiff circumference.
  assert (Hrun : processBLESpeed m data w =
                 Returns (Csc.speed revDiff circumference
                            (if String.eqb (SpeedUnits (speedConfig m)) "mph"
                             then 2.23694%float else 3.6%float) timeDiff,
                          setLast revs time
                            (reported
                               (Csc.speed revDiff circumference
                                  (if String.eqb (SpeedUnits (speedConfig m)) "mph"
                                   then 2.23694%float else 3.6%float) timeDiff)
                               (SpeedUnits (speedConfig m)) (processing w)))).
  { rewrite (processBLESpeed_sample m data w revs time Hs).
    apply Z.eqb_neq in Hbase. rewrite Hbase.
    rewrite to_uint16_mod. fold timeDiff.
    apply Z.eqb_neq in Hdelta. fold timeDiff in Hdelta. rewrite Hdelta.
    reflexivity. }
  repeat split.
  - eexists. split; [ exact Hrun | split; reflexivity ].
  - intros Hunits. rewrite Hunits in Hrun. eexists. exact Hrun.
  - intros Hunits. rewrite Hunits in Hrun. eexists. exact Hrun.
  - intros Hfits. apply to_int32_small. exact Hfits.
Qed.

Lemma speed_formula_one_revolution_per_second :
  exists w',
    processBLESpeed kmh rev1001_t2048 (after kmh rev1000_t1024 start)
    = Returns (7.400390625%float, w').
Proof.
  destruct (speed_formula kmh rev1001_t2048 (after kmh rev1000_t1024 start)
              1001 2048) as [_ [Hkmh _]].
  - reflexivity.
  - vm_compute. discriminate.
  - vm_compute. discriminate.
  - destruct (Hkmh eq_refl) as [w' Hrun]. exists w'. exact Hrun.
Defined.

(** The same second in miles per hour, and a revolution count that went
    back by one: the negative difference gives a negative speed. *)
Example one_revolution_per_second_mph :
  speedOf (processBLESpeed mph rev1001_t2048 (after mph rev1000_t1024 start))
  = 4.5983971679687503%float.
Proof. reflexivity. Qed.

Example one_revolution_back :
  speedOf (processBLESpeed kmh rev999_t2048 (after kmh rev1000_t1024 start))
  = (-7.400390625)%float.
Proof. reflexivity. Qed.

(** C10.  A payload whose event time is exactly 0 is stored as it is, whether
    it sets the baseline or yields a computed speed; [lastWheelTime] is then
    0, so the next payload with wheel data takes the baseline branch: speed 0
    and a new baseline, whatever its revolutions and event time. *)
Theorem event_time_zero_resets_baseline (m m' : BLEController)
    (data1 data2 : list byte) (w : world) (revs1 revs2 time2 : Z) :
  wellTyped w ->
  Csc.sample data1 = Some (revs1, 0) ->
  Csc.sample data2 = Some (revs2, time2) ->
  exists v1 w1 w2,
    processBLESpeed m data1 w = Returns (v1, w1) /\
    lastWheelRevs w1 = revs1 /\ lastWheelTime w1 = 0 /\
    processBLESpeed m' data2 w1 = Returns (0%float, w2) /\
    lastWheelRevs w2 = revs2 /\ lastWheelTime w2 = time2.
Proof.
  intros [_ Htime] Hs1 Hs2.
  assert (Hfirst : exists v1 w1,
             processBLESpeed m data1 w = Returns (v1, w1) /\
             lastWheelRevs w1 = revs1 /\ lastWheelTime w1 = 0).
  { rewrite (processBLESpeed_sample m data1 w revs1 0 Hs1).
    destruct (Z.eqb_spec (lastWheelTime w) 0) as [Hzero | Hbase].
    - do 2 eexists. repeat split.
    - destruct (Z.eqb_spec (to_uint16 (0 - lastWheelTime w)) 0) as [Hd | Hd].
      + pose proof (proj1 (timeDiff_zero_iff 0 (lastWheelTime w)
                             ltac:(lia) ltac:(lia)) Hd).
        lia.
      + do 2 eexists. repeat split. }
  destruct Hfirst as (v1 & w1 & Hrun1 & Hrevs1 & Htime1).
  destruct (baseline_branch m' data2 w1 revs2 time2 Hs2 Htime1)
    as (Hrun2 & Hrevs2 & Htime2).
  exists v1, w1, (setLast revs2 time2 (processing w1)).
  repeat split; assumption.
Qed.

Lemma event_time_zero_resets_baseline_example :
  exists v1 w1 w2,
    processBLESpeed kmh rev1001_t0 (after kmh rev1000_t1024 start)
    = Returns (v1, w1) /\
    lastWheelRevs w1 = 1001 /\ lastWheelTime w1 = 0 /\
    processBLESpeed kmh rev1003_t512 w1 = Returns (0%float, w2) /\
    lastWheelRevs w2 = 1003 /\ lastWheelTime w2 = 512.
Proof.
  apply (event_time_zero_resets_baseline kmh kmh rev1001_t0 rev1003_t512
           (after kmh rev1000_t1024 start) 1001 1003 512).
  - vm_compute. repeat split; discriminate.
  - reflexivity.
  - reflexivity.
Defined.

(* ================================================================== *)
(** ** Where the decoder's state lives *)

Lemma logged_processing (w : world) :
  logged (processing w) =
  (logged w ++ [{| lvl := INFO;
                   text := "[SPEED] Processing speed data from BLE peripheral...";
                   value := NoValue |}])%list.
Proof. reflexivity. Qed.

(** What one call of the decoder leaves alone: the adapter flag and the
    samples already handed over; the log only grows. *)
Lemma processBLESpeed_frame (m : BLEController) (data : list byte)
    (w w' : world) (v : float) :
  processBLESpeed m data w = Returns (v, w') ->
  scanning w' = scanning w /\ speedUpdates w' = speedUpdates w /\
  exists lines, logged w' = (logged w ++ lines)%list.
Proof.
  destruct (Csc.sample data) as [[revs time]|] eqn:Hs.
  - rewrite (processBLESpeed_sample m data w revs time Hs).
    destruct (lastWheelTime w =? 0); [ | destruct (to_uint16 _ =? 0) ];
      intros H; injection H as _ <-; repeat split;
      cbn [logged setLast reported processing log];
      try (eexists; reflexivity).
    eexists. rewrite <- app_assoc. reflexivity.
  - rewrite (processBLESpeed_no_sample m data w Hs).
    destruct data; intros H; injection H as _ <-; repeat split.
    + exists []. symmetry. apply app_nil_r.
    + eexists. reflexivity.
Qed.

(** C1, as the code has it.  The decoder is a function of the payload, of the
    controller's speed configuration and of the two package-level variables:
    two calls that agree on these return the same speed and leave the same
    values in the variables, whichever controller they are made on and
    whatever else the package holds.  Besides the variables a call only adds
    log lines.  The variables belong to the package, not to a controller:
    making a controller does not touch them. *)
Theorem decoder_state_is_package_level (m1 m2 : BLEController)
    (data : list byte) (w1 w2 : world) :
  speedConfig m1 = speedConfig m2 ->
  lastWheelRevs w1 = lastWheelRevs w2 ->
  lastWheelTime w1 = lastWheelTime w2 ->
  (exists v w1' w2',
     processBLESpeed m1 data w1 = Returns (v, w1') /\
     processBLESpeed m2 data w2 = Returns (v, w2') /\
     lastWheelRevs w1' = lastWheelRevs w2' /\
     lastWheelTime w1' = lastWheelTime w2' /\
     scanning w1' = scanning w1 /\ speedUpdates w1' = speedUpdates w1 /\
     exists lines, logged w1' = (logged w1 ++ lines)%list) /\
  (forall (bleCfg : BLEConfig) (speedCfg : SpeedConfig) (enable : option error),
     lastWheelRevs (snd (NewBLEController bleCfg speedCfg enable w1))
     = lastWheelRevs w1 /\
     lastWheelTime (snd (NewBLEController bleCfg speedCfg enable w1))
     = lastWheelTime w1).
Proof.
  intros Hcfg Hrevs Htime. split.
  - destruct (processBLESpeed_returns m1 data w1) as (v & w1' & Hrun1).
    pose proof (processBLESpeed_frame m1 data w1 w1' v Hrun1)
      as (Hscan & Hupd & Hlog).
    assert (Hsecond : exists w2',
               processBLESpeed m2 data w2 = Returns (v, w2') /\
               lastWheelRevs w1' = lastWheelRevs w2' /\
               lastWheelTime w1' = lastWheelTime w2').
    { clear Hscan Hupd Hlog.
      destruct (Csc.sample data) as [[revs time]|] eqn:Hs.
      - rewrite (processBLESpeed_sample m1 data w1 revs time Hs) in Hrun1.
        rewrite (processBLESpeed_sample m2 data w2 revs time Hs).
        rewrite <- Hcfg, <- Hrevs, <- Htime.
        destruct (lastWheelTime w1 =? 0); [ | destruct (to_uint16 _ =? 0) ];
          injection Hrun1 as <- <-; eexists;
          (split; [ reflexivity | ]);
          cbn [lastWheelRevs lastWheelTime setLast reported processing log];
          auto.
      - rewrite (processBLESpeed_no_sample m1 data w1 Hs) in Hrun1.
        rewrite (processBLESpeed_no_sample m2 data w2 Hs).
        destruct data; injection Hrun1 as <- <-; eexists;
          (split; [ reflexivity | ]);
          cbn [lastWheelRevs lastWheelTime processing log]; auto. }
    destruct Hsecond as (w2' & Hrun2 & Hr & Ht).
    exists v, w1', w2'. auto 10.
  - intros bleCfg speedCfg [err|]; split; reflexivity.
Qed.

(** A second controller for another sensor, same wheel and units. *)
Definition kmh_other : BLEController :=
  {| bleConfig := {| SensorUUID := "AA:BB:CC:DD:EE:FF"; ScanTimeoutSecs := 10 |};
     speedConfig := speedConfig kmh |}.

Lemma decoder_state_is_package_level_example :
  (exists v w1' w2',
     processBLESpeed kmh rev1001_t2048 (after kmh rev1000_t1024 start)
     = Returns (v, w1') /\
     processBLESpeed kmh_other rev1001_t2048
       (setScanning true (after kmh_other rev1000_t1024 start))
     = Returns (v, w2') /\
     lastWheelRevs w1' = lastWheelRevs w2' /\
     lastWheelTime w1' = lastWheelTime w2' /\
     scanning w1' = scanning (after kmh rev1000_t1024 start) /\
     speedUpdates w1' = speedUpdates (after kmh rev1000_t1024 start) /\
     exists lines,
       logged w1' = (logged (after kmh rev1000_t1024 start) ++ lines)%list) /\
  (forall (bleCfg : BLEConfig) (speedCfg : SpeedConfig) (enable : option error),
     lastWheelRevs (snd (NewBLEController bleCfg speedCfg enable
                           (after kmh rev1000_t1024 start)))
     = lastWheelRevs (after kmh rev1000_t1024 start) /\
     lastWheelTime (snd (NewBLEController bleCfg speedCfg enable
                           (after kmh rev1000_t1024 start)))
     = lastWheelTime (after kmh rev1000_t1024 start)).
Proof.
  apply (decoder_state_is_package_level kmh kmh_other rev1001_t2048
           (after kmh rev1000_t1024 start)
           (setScanning true (after kmh_other rev1000_t1024 start)));
    reflexivity.
Defined.

(** C1 as worded fails: the state is not scoped to a controller.  After one
    controller has decoded (1000, 1024), a controller made afterwards decodes
    its first payload (1001, 2048) against that baseline and returns
    7.400390625 instead of 0. *)
Lemma new_controller_inherits_baseline :
  ~ (forall (bleCfg : BLEConfig) (speedCfg : SpeedConfig) (w w' : world)
            (m : BLEController) (data : list byte) (revs time : Z),
        NewBLEController bleCfg speedCfg None w = (Some m, None, w') ->
        Csc.sample data = Some (revs, time) ->
        exists w'', processBLESpeed m data w' = Returns (0%float, w'')).
Proof.
  intros claim.
  destruct (claim sensor (speedConfig kmh) (after kmh rev1000_t1024 start)
              _ _ rev1001_t2048 1001 2048 eq_refl eq_refl) as (w'' & Hrun).
  apply (f_equal (fun o => PrimFloat.ltb 0 (speedOf o))) in Hrun.
  vm_compute in Hrun. discriminate.
Qed.

(* ================================================================== *)
(** ** The peripheral resolver *)

(** The callback's test on an advertisement. *)
Definition isSensor (m : BLEController) (result : ScanResult) : bool :=
  String.eqb (Address result) (SensorUUID (bleConfig m)).

Lemma scanGoroutine_no_match (m : BLEController) (bt : bluetooth) (w : world) :
  find (isSensor m) (adverts bt) = None ->
  fst (scanGoroutine m bt w) = None.
Proof.
  intros Hnone. unfold scanGoroutine.
  destruct (Scan bt); [ reflexivity | ].
  unfold isSensor in Hnone. rewrite Hnone. reflexivity.
Qed.

Lemma scanning_stopScan (bt : bluetooth) (l : level) (w : world) :
  StopScan bt = None -> scanning (stopScan bt l w) = false.
Proof. intros H. unfold stopScan. rewrite H. reflexivity. Qed.

(** C7, as the code has it.  When no advertisement has matched and the scan
    context is done, the scan calls StopScan and returns the error
    "scanning time limit reached", which [GetBLECharacteristic] hands on,
    whether the scan context is done because the caller's context was
    cancelled or because the scan timeout ran out: the two causes give the
    same result. *)
Theorem scan_done_reports_time_limit (m : BLEController) (ctx : context)
    (elapsed : bool) (pick : selectCase) (bt : bluetooth) (w : world) :
  find (isSensor m) (adverts bt) = None ->
  Err ctx = Some ContextCanceled \/ (Err ctx = None /\ elapsed = true) ->
  (exists w',
     scanForBLEPeripheral m ctx elapsed pick bt w =
     Returns ({| Address := "" |},
              Some (ErrorsNew "scanning time limit reached"), w') /\
     (StopScan bt = None -> scanning w' = false) /\
     GetBLECharacteristic m ctx elapsed pick bt w =
     Returns (None, Some (ErrorsNew "scanning time limit reached"), w')) /\
  scanForBLEPeripheral m ctx elapsed pick bt w
  = scanForBLEPeripheral m Background true pick bt w.
Proof.
  intros Hnone Hdone.
  pose proof (scanGoroutine_no_match m bt w Hnone) as Hfound.
  assert (Hd : Done (WithTimeout ctx elapsed) = true).
  { unfold Done, WithTimeout.
    destruct Hdone as [-> | [-> ->]]; reflexivity. }
  unfold GetBLECharacteristic, scanForBLEPeripheral. rewrite Hd.
  change (Done (WithTimeout Background true)) with true.
  destruct (scanGoroutine m bt w) as [found w1]. cbn [fst] in Hfound.
  subst found. split; [ | reflexivity ].
  eexists. split; [ reflexivity | ].
  split; [ apply scanning_stopScan | reflexivity ].
Qed.

(** A stack that hears nothing. *)
Definition silence : bluetooth :=
  {| Scan := None; adverts := []; StopScan := None;
     Connect := fun address => ({| devAddress := address |}, None);
     DiscoverServices := fun _ _ => ([], None);
     DiscoverCharacteristics := fun _ _ => ([], None) |}.

Lemma scan_done_reports_time_limit_on_cancel :
  (exists w',
     scanForBLEPeripheral kmh canceled false caseDone silence start =
     Returns ({| Address := "" |},
              Some (ErrorsNew "scanning time limit reached"), w') /\
     (StopScan silence = None -> scanning w' = false) /\
     GetBLECharacteristic kmh canceled false caseDone silence start =
     Returns (None, Some (ErrorsNew "scanning time limit reached"), w')) /\
  scanForBLEPeripheral kmh canceled false caseDone silence start
  = scanForBLEPeripheral kmh Background true caseDone silence start.
Proof.
  apply (scan_done_reports_time_limit kmh canceled false caseDone silence start).
  - reflexivity.
  - left. reflexivity.
Defined.

(** C7 as worded fails: with the caller's context cancelled before the
    timeout and no advertisement matched, the error returned is not the
    context's cancellation error. *)
Lemma scan_cancel_is_not_reported_as_cancel :
  ~ (forall (m : BLEController) (pick : selectCase) (bt : bluetooth) (w : world),
        find (isSensor m) (adverts bt) = None ->
        exists result w',
          scanForBLEPeripheral m canceled false pick bt w
          = Returns (result, Some ContextCanceled, w')).
Proof.
  intros claim.
  destruct (claim kmh caseDone silence start eq_refl) as (result & w' & Hrun).
  vm_compute in Hrun. discriminate.
Qed.

(** A stack on which the sensor answers, connects, and then reports the
    services and characteristics given. *)
Definition answering (m : BLEController)
    (services : list DeviceService * option error)
    (characteristics : list DeviceCharacteristic * option error) : bluetooth :=
  {| Scan := None;
     adverts := [{| Address := SensorUUID (bleConfig m) |}];
     StopScan := None;
     Connect := fun address => ({| devAddress := address |}, None);
     DiscoverServices := fun _ _ => services;
     DiscoverCharacteristics := fun _ _ => characteristics |}.

Definition cscService : DeviceService := {| svcUUID := 0x1816 |}.

Lemma scan_answering (m : BLEController)
    (services : list DeviceService * option error)
    (characteristics : list DeviceCharacteristic * option error) (w : world) :
  exists w',
    scanForBLEPeripheral m Background false caseFound
      (answering m services characteristics) w
    = Returns ({| Address := SensorUUID (bleConfig m) |}, None, w').
Proof.
  unfold scanForBLEPeripheral, scanGoroutine, answering.
  cbn [Scan adverts find Address]. rewrite String.eqb_refl.
  cbn [WithTimeout Done Err Background]. eexists. reflexivity.
Qed.

(** C8.  Service or characteristic discovery that returns an empty list and
    no error is followed by [svc[0]], respectively [char[0]], with no length
    test in between: the call panics instead of returning an error.  A
    discovery error, on the other hand, is returned to the caller. *)
Theorem empty_discovery_result_panics (m : BLEController) (w : world)
    (err : error) (found : list DeviceService)
    (chars : list DeviceCharacteristic) :
  GetBLECharacteristic m Background false caseFound
    (answering m ([], None) ([], None)) w
  = Panics "index out of range" /\
  GetBLECharacteristic m Background false caseFound
    (answering m ([cscService], None) ([], None)) w
  = Panics "index out of range" /\
  (exists w',
     GetBLECharacteristic m Background false caseFound
       (answering m (found, Some err) ([], None)) w
     = Returns (None, Some err, w')) /\
  (exists w',
     GetBLECharacteristic m Background false caseFound
       (answering m ([cscService], None) (chars, Some err)) w
     = Returns (None, Some err, w')) /\
  (exists w',
     GetBLECharacteristic m Background false caseFound
       (answering m ([cscService], None) ([{| charUUID := 0x2A5B |}], None)) w
     = Returns (Some {| charUUID := 0x2A5B |}, None, w')).
Proof.
  unfold GetBLECharacteristic.
  repeat split.
  - destruct (scan_answering m ([], None) ([], None) w) as [w' ->].
    reflexivity.
  - destruct (scan_answering m ([cscService], None) ([], None) w) as [w' ->].
    reflexivity.
  - destruct (scan_answering m (found, Some err) ([], None) w) as [w' ->].
    eexists. reflexivity.
  - destruct (scan_answering m ([cscService], None) (chars, Some err) w)
      as [w' ->].
    eexists. reflexivity.
  - destruct (scan_answering m ([cscService], None)
                ([{| charUUID := 0x2A5B |}], None) w) as [w' ->].
    eexists. reflexivity.
Qed.

(* ================================================================== *)
(** ** The notification monitor *)

Section Monitor.

Variable m : BLEController.

Lemma awaitDone_cancelled (events : list event) (w : world) :
  In CtxCancelled events -> exists w', awaitDone m events w = Returns (None, w').
Proof.
  revert w. induction events as [|e rest IH]; intros w Hin.
  - destruct Hin.
  - destruct e as [buf| |]; cbn [awaitDone].
    + destruct Hin as [Heq | Hin]; [ discriminate | ].
      destruct (processBLESpeed_returns m buf w) as (v & w1 & ->).
      cbn [Go.bind]. apply IH. exact Hin.
    + destruct Hin as [Heq | Hin]; [ discriminate | ].
      apply IH. exact Hin.
    + eexists. reflexivity.
Qed.

Lemma awaitDone_blocks (events : list event) (w : world) :
  ~ In CtxCancelled events -> awaitDone m events w = Blocks.
Proof.
  revert w. induction events as [|e rest IH]; intros w Hnot.
  - reflexivity.
  - destruct e as [buf| |]; cbn [awaitDone].
    + destruct (processBLESpeed_returns m buf w) as (v & w1 & ->).
      cbn [Go.bind]. apply IH. intros Hin. apply Hnot. right. exact Hin.
    + apply IH. intros Hin. apply Hnot. right. exact Hin.
    + exfalso. apply Hnot. left. reflexivity.
Qed.

Lemma awaitDone_no_error (events : list event) (w w' : world) (err : error) :
  awaitDone m events w <> Returns (Some err, w').
Proof.
  revert w. induction events as [|e rest IH]; intros w.
  - discriminate.
  - destruct e as [buf| |]; cbn [awaitDone].
    + destruct (processBLESpeed_returns m buf w) as (v & w1 & ->).
      cbn [Go.bind]. apply IH.
    + apply IH.
    + discriminate.
Qed.

(** A lost connection changes nothing in what the monitor does next. *)
Lemma awaitDone_ignores_connection (before rest : list event) (w : world) :
  awaitDone m (before ++ ConnectionLost :: rest) w
  = awaitDone m (before ++ rest) w.
Proof.
  revert w. induction before as [|e before IH]; intros w.
  - reflexivity.
  - destruct e as [buf| |]; cbn [awaitDone app].
    + destruct (processBLESpeed_returns m buf w) as (v & w1 & ->).
      cbn [Go.bind]. apply IH.
    + apply IH.
    + reflexivity.
Qed.

(** C9, as the code has it.  Once subscribed, the monitor stays suspended
    until its context is cancelled and then returns nil; it returns nil in no
    other way and never returns an error: a connection lost in the meantime
    leaves its behaviour as it would be without the loss.  The one error it
    can return is that of a failed subscription. *)
Theorem monitor_returns_nil_on_cancel_only (events : list event) (w : world) :
  (In CtxCancelled events ->
   exists w', GetBLEUpdates m None events w = Returns (None, w')) /\
  (~ In CtxCancelled events -> GetBLEUpdates m None events w = Blocks) /\
  (forall (err : error) (w' : world),
     GetBLEUpdates m None events w <> Returns (Some err, w')) /\
  (forall before rest : list event,
     events = (before ++ ConnectionLost :: rest)%list ->
     GetBLEUpdates m None events w = GetBLEUpdates m None (before ++ rest) w) /\
  (forall err : error,
     exists w', GetBLEUpdates m (Some err) events w = Returns (Some err, w')).
Proof.
  unfold GetBLEUpdates. repeat split.
  - apply awaitDone_cancelled.
  - apply awaitDone_blocks.
  - intros err w'. apply awaitDone_no_error.
  - intros before rest ->. apply awaitDone_ignores_connection.
  - intros err. eexists. reflexivity.
Qed.

End Monitor.

(** C9 as worded fails: a lost connection does not surface as an error.  The
    monitor stays suspended after it, and returns nil when the context is
    cancelled later. *)
Lemma lost_connection_raises_no_error :
  GetBLEUpdates kmh None [Notification rev1000_t1024; ConnectionLost] start
  = Blocks /\
  ~ (forall (m : BLEController) (events : list event) (w : world),
        In ConnectionLost events -> In CtxCancelled events ->
        exists err w', GetBLEUpdates m None events w = Returns (Some err, w')).
Proof.
  split; [ reflexivity | ].
  intros claim.
  destruct (claim kmh [ConnectionLost; CtxCancelled] start)
    as (err & w' & Hrun).
  - left. reflexivity.
  - right. left. reflexivity.
  - vm_compute in Hrun. discriminate.
Qed.

(* ================================================================== *)
(** ** The orchestrator *)

Import main.

(** A property kept by every move is kept by every schedule. *)
Lemma run_invariant (P : state -> Prop) :
  (forall l s s', P s -> step l s = Some s' -> P s') ->
  forall schedule s s', P s -> run schedule s = Some s' -> P s'.
Proof.
  intros Hstep schedule.
  induction schedule as [|l rest IH]; intros s s' HP Hrun; cbn [run] in Hrun.
  - injection Hrun as <-. exact HP.
  - destruct (step l s) as [s1|] eqn:Hs; [ | discriminate ].
    apply (IH s1 s'); [ | exact Hrun ].
    apply (Hstep l s s1 HP Hs).
Qed.

Lemma run_app (first second : list label) (s : state) :
  run (first ++ second) s =
  match run first s with
  | Some s' => run second s'
  | None => None
  end.
Proof.
  revert s. induction first as [|l rest IH]; intros s; cbn [run app].
  - reflexivity.
  - destruct (step l s); [ apply IH | reflexivity ].
Qed.

(** Splits a move into the cases of [step] that allow it. *)
Ltac step_cases H :=
  unfold step, send, option_map in H;
  repeat match type of H with
         | context [match ?x with _ => _ end] => destruct x eqn:?
         end;
  try discriminate H;
  injection H as <-.

(** What holds of every state a schedule can reach from [init]. *)
Definition coherent (s : state) : Prop :=
  (List.length (errs s) <= capacity)%nat /\
  (forall ce, In ce (errs s) ->
     (componentType ce = BLE /\ monitor s = Finished) \/
     (componentType ce = VIDEO /\ player s = Finished)) /\
  (forall ce, monitor s = Sending ce -> componentType ce = BLE) /\
  (forall ce, player s = Sending ce -> componentType ce = VIDEO) /\
  (orchestrator s = Resolving ->
     errs s = [] /\ monitor s = Idle /\ player s = Idle).

Lemma init_coherent : coherent init.
Proof.
  unfold coherent, init; cbn. repeat split; try discriminate; try lia.
Qed.

(** Closes the clauses of [coherent] after a move, from those before it. *)
Ltac coherent_clauses Hmem Hmon Hply Hres :=
  repeat split; try discriminate; try assumption; try (cbn; lia);
  try (let x := fresh "x" in
       let Hin := fresh "Hin" in
       intros x Hin; cbn [In] in Hin;
       first [ destruct Hin as [<- | []]; cbn [componentType];
               first [ left; split; [ eauto | reflexivity ]
                     | right; split; [ eauto | reflexivity ] ]
             | destruct (Hmem x Hin) as [[? ?]|[? ?]];
               first [ congruence
                     | left; split; [ assumption | congruence ]
                     | right; split; [ assumption | congruence ] ] ]);
  try (let x := fresh "x" in
       let Heq := fresh "Heq" in
       intros x Heq; first [ injection Heq as <-; reflexivity
                           | apply Hmon; congruence
                           | apply Hply; congruence
                           | congruence ]);
  try (let Ho := fresh "Ho" in
       intros Ho; first [ congruence
                        | destruct (Hres Ho) as (? & ? & ?); congruence ]);
  try match goal with
      | Ho : _ = Resolving |- _ =>
          first [ congruence | destruct (Hres Ho) as (? & ? & ?); congruence ]
      end.

Lemma step_coherent (l : label) (s s' : state) :
  coherent s -> step l s = Some s' -> coherent s'.
Proof.
  intros Hco Hstep.
  destruct l; cbn [step] in Hstep.
  - destruct (Err (ctx s)); [ discriminate | ].
    injection Hstep as <-. exact Hco.
  - destruct (orchestrator s) eqn:Ho; try discriminate.
    destruct Hco as (Hcap & Hmem & Hmon & Hply & Hres).
    destruct (Hres Ho) as (He & Hm & Hp).
    destruct r; injection Hstep as <-; unfold coherent;
      cbn [errs monitor player orchestrator ret setOrchestrator setPlayer setMonitor];
      rewrite ?He; cbn [List.length In]; rewrite ?Hm, ?Hp;
      repeat split; try discriminate; try (cbn; lia); try tauto.
  - destruct (monitor s) eqn:Hm; try discriminate.
    destruct Hco as (Hcap & Hmem & Hmon & Hply & Hres).
    destruct r; injection Hstep as <-; unfold coherent;
      cbn [errs monitor player orchestrator setMonitor componentType];
      coherent_clauses Hmem Hmon Hply Hres.
  - destruct (monitor s) eqn:Hm; try discriminate.
    destruct (Done (ctx s)); [ | discriminate ].
    destruct Hco as (Hcap & Hmem & Hmon & Hply & Hres).
    injection Hstep as <-; unfold coherent;
      cbn [errs monitor player orchestrator setMonitor componentType];
      coherent_clauses Hmem Hmon Hply Hres.
  - destruct (monitor s) eqn:Hm; try discriminate.
    unfold send, capacity in Hstep.
    destruct (List.length (errs s) <? 1)%nat eqn:Hroom; [ | discriminate ].
    apply Nat.ltb_lt in Hroom.
    destruct (errs s) as [|x q] eqn:He; [ | cbn in Hroom; lia ].
    destruct Hco as (Hcap & Hmem & Hmon & Hply & Hres).
    injection Hstep as <-; unfold coherent;
      cbn [errs monitor player orchestrator setMonitor setErrs componentType option_map app];
      coherent_clauses Hmem Hmon Hply Hres.
  - destruct (player s) eqn:Hp; try discriminate.
    destruct Hco as (Hcap & Hmem & Hmon & Hply & Hres).
    injection Hstep as <-; unfold coherent;
      cbn [errs monitor player orchestrator setPlayer componentType];
      coherent_clauses Hmem Hmon Hply Hres.
  - destruct (player s) eqn:Hp; try discriminate.
    unfold send, capacity in Hstep.
    destruct (List.length (errs s) <? 1)%nat eqn:Hroom; [ | discriminate ].
    apply Nat.ltb_lt in Hroom.
    destruct (errs s) as [|x q] eqn:He; [ | cbn in Hroom; lia ].
    destruct Hco as (Hcap & Hmem & Hmon & Hply & Hres).
    injection Hstep as <-; unfold coherent;
      cbn [errs monitor player orchestrator setPlayer setErrs componentType option_map app];
      coherent_clauses Hmem Hmon Hply Hres.
  - destruct (orchestrator s) eqn:Ho; try discriminate.
    destruct (Err (ctx s)); [ | discriminate ].
    destruct Hco as (Hcap & Hmem & Hmon & Hply & Hres).
    injection Hstep as <-; unfold coherent;
      cbn [errs monitor player orchestrator ret];
      coherent_clauses Hmem Hmon Hply Hres.
  - destruct (orchestrator s) eqn:Ho; try discriminate.
    destruct (errs s) as [|compErr rest] eqn:He; [ discriminate | ].
    destruct Hco as (Hcap & Hmem & Hmon & Hply & Hres).
    assert (Hmem' : forall ce, In ce rest ->
              (componentType ce = BLE /\ monitor s = Finished) \/
              (componentType ce = VIDEO /\ player s = Finished))
      by (intros ce Hin; apply Hmem; rewrite He; right; exact Hin).
    rewrite He in Hcap. cbn [List.length] in Hcap.
    destruct (err compErr); injection Hstep as <-; unfold coherent;
      cbn [errs monitor player orchestrator ret setErrs];
      coherent_clauses Hmem' Hmon Hply Hres.
Qed.

Lemma reachable_coherent (schedule : list label) (s : state) :
  run schedule init = Some s -> coherent s.
Proof.
  apply (run_invariant coherent step_coherent schedule init s init_coherent).
Qed.

(** Once [startAppControllers] has returned, no move changes what it
    returned, the context stays cancelled, and nothing is received from the
    channel any more: its contents only grow. *)
Definition settled (c : ComponentType) (e : option error)
    (queued : list componentErr) (s : state) : Prop :=
  orchestrator s = Returned c e /\
  Err (ctx s) = Some ContextCanceled /\
  exists more, errs s = (queued ++ more)%list.

Lemma step_settled (c : ComponentType) (e : option error)
    (queued : list componentErr) (l : label) (s s' : state) :
  settled c e queued s -> step l s = Some s' -> settled c e queued s'.
Proof.
  intros (Ho & Hctx & more & Hq) Hstep. unfold settled.
  destruct l; cbn [step] in Hstep.
  - rewrite Hctx in Hstep. discriminate.
  - rewrite Ho in Hstep. discriminate.
  - destruct (monitor s); try discriminate.
    destruct r; injection Hstep as <-; cbn; eauto.
  - destruct (monitor s); try discriminate.
    destruct (Done (ctx s)); [ | discriminate ].
    injection Hstep as <-; cbn; eauto.
  - destruct (monitor s); try discriminate.
    unfold send in Hstep.
    destruct (List.length (errs s) <? capacity)%nat; [ | discriminate ].
    injection Hstep as <-; cbn. repeat split; try assumption.
    exists (more ++ [ce])%list. rewrite Hq, app_assoc. reflexivity.
  - destruct (player s); try discriminate.
    injection Hstep as <-; cbn; eauto.
  - destruct (player s); try discriminate.
    unfold send in Hstep.
    destruct (List.length (errs s) <? capacity)%nat; [ | discriminate ].
    injection Hstep as <-; cbn. repeat split; try assumption.
    exists (more ++ [ce])%list. rewrite Hq, app_assoc. reflexivity.
  - rewrite Ho in Hstep. discriminate.
  - rewrite Ho in Hstep. discriminate.
Qed.

(** Goroutines that have sent their completion. *)
Definition finished (g : goroutine) : nat :=
  match g with Finished => 1%nat | _ => 0%nat end.

(** While [startAppControllers] waits in its select, nothing has been
    received: the channel holds one completion per finished goroutine. *)
Definition balanced (s : state) : Prop :=
  orchestrator s = Selecting ->
  (finished (monitor s) + finished (player s))%nat = List.length (errs s).

(** After the return that follows a received completion, the channel holds
    one completion less than there are finished goroutines, for good. *)
Definition unwinding (s : state) : Prop :=
  (finished (monitor s) + finished (player s))%nat = S (List.length (errs s)).

Lemma step_balanced (l : label) (s s' : state) :
  coherent s -> balanced s -> step l s = Some s' -> balanced s'.
Proof.
  intros (_ & _ & _ & _ & Hres) Hbal Hstep. unfold balanced in *.
  destruct l; cbn [step] in Hstep.
  - destruct (Err (ctx s)); [ discriminate | ].
    injection Hstep as <-. exact Hbal.
  - destruct (orchestrator s) eqn:Ho; try discriminate.
    destruct (Hres eq_refl) as (He & Hm & Hp).
    destruct r; injection Hstep as <-; cbn; [ discriminate | ].
    rewrite He. reflexivity.
  - destruct (monitor s) eqn:Hm; try discriminate.
    destruct r; injection Hstep as <-; cbn in *; exact Hbal.
  - destruct (monitor s) eqn:Hm; try discriminate.
    destruct (Done (ctx s)); [ | discriminate ].
    injection Hstep as <-; cbn in *; exact Hbal.
  - destruct (monitor s) eqn:Hm; try discriminate.
    unfold send in Hstep.
    destruct (List.length (errs s) <? capacity)%nat; [ | discriminate ].
    injection Hstep as <-; cbn in *.
    intros Ho. rewrite length_app. cbn. specialize (Hbal Ho). lia.
  - destruct (player s) eqn:Hp; try discriminate.
    injection Hstep as <-; cbn in *. exact Hbal.
  - destruct (player s) eqn:Hp; try discriminate.
    unfold send in Hstep.
    destruct (List.length (errs s) <? capacity)%nat; [ | discriminate ].
    injection Hstep as <-; cbn in *.
    intros Ho. rewrite length_app. cbn. specialize (Hbal Ho). lia.
  - destruct (orchestrator s); try discriminate.
    destruct (Err (ctx s)); [ | discriminate ].
    injection Hstep as <-; cbn. discriminate.
  - destruct (orchestrator s); try discriminate.
    destruct (errs s) as [|compErr rest]; [ discriminate | ].
    destruct (err compErr); injection Hstep as <-; cbn; discriminate.
Qed.

Lemma reachable_balanced (schedule : list label) (s : state) :
  run schedule init = Some s -> coherent s /\ balanced s.
Proof.
  apply (run_invariant (fun s => coherent s /\ balanced s)).
  - intros l s0 s1 [Hco Hbal] Hstep. split.
    + apply (step_coherent l s0 s1 Hco Hstep).
    + apply (step_balanced l s0 s1 Hco Hbal Hstep).
  - split; [ exact init_coherent | ].
    intros Ho. discriminate Ho.
Qed.

Lemma step_unwinding (c : ComponentType) (e : option error) (l : label)
    (s s' : state) :
  orchestrator s = Returned c e ->
  unwinding s -> step l s = Some s' -> unwinding s'.
Proof.
  intros Ho Hun Hstep. unfold unwinding in *.
  destruct l; cbn [step] in Hstep.
  - destruct (Err (ctx s)); [ discriminate | ].
    injection Hstep as <-. exact Hun.
  - rewrite Ho in Hstep. discriminate.
  - destruct (monitor s) eqn:Hm; try discriminate.
    destruct r; injection Hstep as <-; cbn in *; exact Hun.
  - destruct (monitor s) eqn:Hm; try discriminate.
    destruct (Done (ctx s)); [ | discriminate ].
    injection Hstep as <-; cbn in *; exact Hun.
  - destruct (monitor s) eqn:Hm; try discriminate.
    unfold send in Hstep.
    destruct (List.length (errs s) <? capacity)%nat; [ | discriminate ].
    injection Hstep as <-; cbn in *.
    rewrite length_app. cbn. lia.
  - destruct (player s) eqn:Hp; try discriminate.
    injection Hstep as <-; cbn in *. exact Hun.
  - destruct (player s) eqn:Hp; try discriminate.
    unfold send in Hstep.
    destruct (List.length (errs s) <? capacity)%nat; [ | discriminate ].
    injection Hstep as <-; cbn in *.
    rewrite length_app. cbn. lia.
  - rewrite Ho in Hstep. discriminate.
  - rewrite Ho in Hstep. discriminate.
Qed.

(** A move other than the select's leaves [startAppControllers] where it is. *)
Lemma step_orchestrator (l : label) (s s' : state) :
  step l s = Some s' ->
  orchestrator s' = orchestrator s \/
  (orchestrator s = Resolving /\ exists r, l = Resolved r) \/
  (orchestrator s = Selecting /\ (l = SelectDone \/ l = SelectErrs)).
Proof.
  intros Hstep. destruct l; cbn [step] in Hstep.
  - destruct (Err (ctx s)); [ discriminate | ].
    injection Hstep as <-. left. reflexivity.
  - destruct (orchestrator s); try discriminate. right. left. eauto.
  - destruct (monitor s); try discriminate.
    destruct r; injection Hstep as <-; left; reflexivity.
  - destruct (monitor s); try discriminate.
    destruct (Done (ctx s)); [ | discriminate ].
    injection Hstep as <-. left. reflexivity.
  - destruct (monitor s); try discriminate.
    unfold send in Hstep.
    destruct (List.length (errs s) <? capacity)%nat; [ | discriminate ].
    injection Hstep as <-. left. reflexivity.
  - destruct (player s); try discriminate.
    injection Hstep as <-. left. reflexivity.
  - destruct (player s); try discriminate.
    unfold send in Hstep.
    destruct (List.length (errs s) <? capacity)%nat; [ | discriminate ].
    injection Hstep as <-. left. reflexivity.
  - destruct (orchestrator s); try discriminate. right. right. auto.
  - destruct (orchestrator s); try discriminate. right. right. auto.
Qed.

(** What holds for good once a completion has been received and
    [startAppControllers] has returned on it. *)
Lemma settled_unwinding_facts (c : ComponentType) (e : option error) (s : state) :
  settled c e [] s -> unwinding s ->
  orchestrator s = Returned c e /\
  Err (ctx s) = Some ContextCanceled /\
  step SelectErrs s = None /\ step SelectDone s = None /\
  (monitor s = AwaitingDone -> step MonitorDone s <> None) /\
  (forall ce, monitor s = Sending ce -> step MonitorSend s <> None) /\
  (forall ce, player s = Sending ce -> step PlayerSend s <> None) /\
  (monitor s = Finished -> player s = Finished -> exists ce, errs s = [ce]).
Proof.
  intros (Ho & Hctx & _) Hun. unfold unwinding in Hun.
  repeat split; try assumption.
  - cbn [step]. rewrite Ho. reflexivity.
  - cbn [step]. rewrite Ho. reflexivity.
  - intros Hm. cbn [step]. rewrite Hm. unfold Done. rewrite Hctx. discriminate.
  - intros ce Hm. cbn [step]. rewrite Hm. unfold send, capacity.
    rewrite Hm in Hun. cbn [finished] in Hun.
    destruct (errs s) as [|x q]; [ discriminate | ].
    destruct (player s); cbn in Hun; lia.
  - intros ce Hp. cbn [step]. rewrite Hp. unfold send, capacity.
    rewrite Hp in Hun. cbn [finished] in Hun.
    destruct (errs s) as [|x q]; [ discriminate | ].
    destruct (monitor s); cbn in Hun; lia.
  - intros Hm Hp. rewrite Hm, Hp in Hun. cbn [finished Nat.add] in Hun.
    destruct (errs s) as [|x [|y q]]; cbn in Hun; try lia.
    exists x. reflexivity.
Qed.

(** C2, as the code has it.  Let the select of [startAppControllers] be
    waiting, its context not cancelled, and the first completion in the
    channel carry an error [e] of component [c].  Then the one move the
    function can make is to receive that completion; it returns ([c], [e]),
    the component's own error, and its deferred stop cancels the context.
    From then on, under every schedule: the result stays ([c], [e]); the
    monitor's wait on the context is released and no send ever blocks, so
    the other goroutine unwinds; nothing is received from the channel again,
    so the other goroutine's completion is not acted upon: it stays in the
    channel's buffer. *)
Theorem first_error_wins (schedule : list label) (s : state)
    (c : ComponentType) (e : error) (rest : list componentErr) :
  run schedule init = Some s ->
  orchestrator s = Selecting ->
  Err (ctx s) = None ->
  errs s = {| componentType := c; err := Some e |} :: rest ->
  exists s1,
    step SelectErrs s = Some s1 /\
    orchestrator s1 = Returned c (Some e) /\
    Err (ctx s1) = Some ContextCanceled /\
    (c = BLE \/ c = VIDEO) /\
    (forall l s', step l s = Some s' -> orchestrator s' <> Selecting ->
                  l = SelectErrs /\ s' = s1) /\
    (forall later s2, run later s1 = Some s2 ->
       orchestrator s2 = Returned c (Some e) /\
       Err (ctx s2) = Some ContextCanceled /\
       step SelectErrs s2 = None /\ step SelectDone s2 = None /\
       (monitor s2 = AwaitingDone -> step MonitorDone s2 <> None) /\
       (forall ce, monitor s2 = Sending ce -> step MonitorSend s2 <> None) /\
       (forall ce, player s2 = Sending ce -> step PlayerSend s2 <> None) /\
       (monitor s2 = Finished -> player s2 = Finished ->
        exists ce, errs s2 = [ce])).
Proof.
  intros Hrun Ho Hctx He.
  destruct (reachable_balanced schedule s Hrun)
    as [(Hcap & Hmem & _ & _ & _) Hbal].
  assert (Hrest : rest = []).
  { rewrite He in Hcap. unfold capacity in Hcap. cbn [List.length] in Hcap.
    destruct rest; [ reflexivity | cbn in Hcap; lia ]. }
  subst rest.
  exists (ret c (Some e) (setErrs [] s)).
  assert (Hrecv : step SelectErrs s = Some (ret c (Some e) (setErrs [] s))).
  { cbn [step]. rewrite Ho, He. reflexivity. }
  split; [ exact Hrecv | ].
  split; [ reflexivity | ].
  assert (Hcancel : Err (ctx (ret c (Some e) (setErrs [] s)))
                    = Some ContextCanceled).
  { cbn [ret setErrs ctx]. unfold cancel. rewrite Hctx. reflexivity. }
  split; [ exact Hcancel | ].
  split.
  { destruct (Hmem {| componentType := c; err := Some e |}) as [[Hc _]|[Hc _]].
    - rewrite He. left. reflexivity.
    - left. exact Hc.
    - right. exact Hc. }
  split.
  - intros l s' Hstep Hleft.
    destruct (step_orchestrator l s s' Hstep)
      as [Hsame | [[Hres _] | [_ [-> | ->]]]].
    + congruence.
    + congruence.
    + cbn [step] in Hstep. rewrite Ho, Hctx in Hstep. discriminate.
    + split; [ reflexivity | congruence ].
  - intros later s2 Hlater.
    assert (Hinv : settled c (Some e) [] s2 /\ unwinding s2).
    { apply (run_invariant
               (fun x => settled c (Some e) [] x /\ unwinding x)) with
        (schedule := later) (s := ret c (Some e) (setErrs [] s)).
      - intros l x x' [Hset Hun] Hstep. split.
        + apply (step_settled c (Some e) [] l x x' Hset Hstep).
        + destruct Hset as (Hox & _).
          apply (step_unwinding c (Some e) l x x' Hox Hun Hstep).
      - split.
        + split; [ reflexivity | ]. split; [ exact Hcancel | ].
          exists []. reflexivity.
        + unfold unwinding. cbn [ret setErrs monitor player errs List.length].
          rewrite (Hbal Ho), He. reflexivity.
      - exact Hlater. }
    destruct Hinv as [Hset Hun].
    apply (settled_unwinding_facts c (Some e) s2 Hset Hun).
Qed.

(** The player fails while the monitor is subscribed and waiting. *)
Definition playbackError : error := Foreign "mpv: playback failed".

Definition playerFails : list label :=
  [Resolved None; Subscribe None; PlayerReturn (Some playbackError); PlayerSend].

Definition playerFailed : state :=
  {| ctx := Background;
     errs := [{| componentType := VIDEO; err := Some playbackError |}];
     monitor := AwaitingDone; player := Finished; orchestrator := Selecting |}.

Lemma first_error_wins_player_fails :
  exists s1,
    step SelectErrs playerFailed = Some s1 /\
    orchestrator s1 = Returned VIDEO (Some playbackError) /\
    Err (ctx s1) = Some ContextCanceled /\
    (VIDEO = BLE \/ VIDEO = VIDEO) /\
    (forall l s', step l playerFailed = Some s' -> orchestrator s' <> Selecting ->
                  l = SelectErrs /\ s' = s1) /\
    (forall later s2, run later s1 = Some s2 ->
       orchestrator s2 = Returned VIDEO (Some playbackError) /\
       Err (ctx s2) = Some ContextCanceled /\
       step SelectErrs s2 = None /\ step SelectDone s2 = None /\
       (monitor s2 = AwaitingDone -> step MonitorDone s2 <> None) /\
       (forall ce, monitor s2 = Sending ce -> step MonitorSend s2 <> None) /\
       (forall ce, player s2 = Sending ce -> step PlayerSend s2 <> None) /\
       (monitor s2 = Finished -> player s2 = Finished ->
        exists ce, errs s2 = [ce])).
Proof.
  apply (first_error_wins playerFails playerFailed VIDEO playbackError []);
    reflexivity.
Defined.

(** C2 as worded fails on one point: later completions are not drained.
    The player fails, [startAppControllers] receives its error and returns
    it, the monitor then sees the cancelled context and sends its nil
    completion; at the end both goroutines have finished, no move is left,
    and the monitor's completion is still in the channel.  (And should a
    signal cancel the context after the player's error is in the channel but
    before the select moves, the select may take [ctx.Done()] and return the
    cancellation error with the player's error left unread.) *)
Lemma later_completion_is_not_drained :
  exists s,
    run (playerFails ++ [SelectErrs; MonitorDone; MonitorSend]) init = Some s /\
    orchestrator s = Returned VIDEO (Some playbackError) /\
    monitor s = Finished /\ player s = Finished /\
    errs s = [{| componentType := BLE; err := None |}] /\
    (forall l, step l s = None) /\
    ~ (forall schedule s',
         run schedule init = Some s' ->
         monitor s' = Finished -> player s' = Finished -> errs s' = []) /\
    exists s',
      run (playerFails ++ [Signal; SelectDone]) init = Some s' /\
      orchestrator s' = Returned APP (Some ContextCanceled) /\
      errs s' = [{| componentType := VIDEO; err := Some playbackError |}].
Proof.
  eexists. split; [ reflexivity | ].
  repeat split.
  - intros l. destruct l; reflexivity.
  - intros claim.
    specialize (claim (playerFails ++ [SelectErrs; MonitorDone; MonitorSend])%list
                  _ eq_refl eq_refl eq_refl).
    discriminate claim.
  - eexists. split; [ reflexivity | ]. split; reflexivity.
Qed.

(* ================================================================== *)
(** ** More on the decoder *)

(** The pair of package-level variables. *)
Definition varsOf (w : world) : Z * Z := (lastWheelRevs w, lastWheelTime w).

Lemma to_int32_congr (a b : Z) :
  a mod 2 ^ 32 = b mod 2 ^ 32 -> to_int32 a = to_int32 b.
Proof.
  intros H. unfold to_int32. rewrite !to_uint32_mod.
  change 4294967296 with (2 ^ 32). rewrite H. reflexivity.
Qed.

(** Speed and new variables are read off the payload, the speed
    configuration and the old variables. *)
Lemma processBLESpeed_vars (m1 m2 : BLEController) (data : list byte)
    (w1 w2 : world) :
  speedConfig m1 = speedConfig m2 ->
  varsOf w1 = varsOf w2 ->
  speedOf (processBLESpeed m1 data w1) = speedOf (processBLESpeed m2 data w2) /\
  varsOf (after m1 data w1) = varsOf (after m2 data w2).
Proof.
  intros Hcfg Hvars. unfold varsOf in Hvars.
  assert (Hr : lastWheelRevs w1 = lastWheelRevs w2) by congruence.
  assert (Ht : lastWheelTime w1 = lastWheelTime w2) by congruence.
  unfold after, varsOf.
  destruct (Csc.sample data) as [[revs time]|] eqn:Hs.
  - rewrite (processBLESpeed_sample m1 data w1 revs time Hs).
    rewrite (processBLESpeed_sample m2 data w2 revs time Hs).
    rewrite <- Hcfg, <- Hr, <- Ht.
    destruct (lastWheelTime w1 =? 0); [ | destruct (to_uint16 _ =? 0) ];
      cbn [speedOf lastWheelRevs lastWheelTime setLast reported processing log];
      split; congruence.
  - rewrite (processBLESpeed_no_sample m1 data w1 Hs).
    rewrite (processBLESpeed_no_sample m2 data w2 Hs).
    destruct data;
      cbn [speedOf lastWheelRevs lastWheelTime processing log];
      split; congruence.
Qed.

(** X1.  A payload that carries no wheel data, because it has fewer than
    seven bytes (the empty payload included) or because bit 0 of its flags
    is clear, is decoded to speed 0 and leaves both variables as they were. *)
Theorem payload_without_wheel_data (m : BLEController) (data : list byte)
    (w : world) :
  (List.length data < 7)%nat \/
  (exists flags rest, data = flags :: rest /\ Z.land (byte_val flags) 0x01 = 0) ->
  exists w',
    processBLESpeed m data w = Returns (0%float, w') /\
    varsOf w' = varsOf w /\
    speedUpdates w' = speedUpdates w /\ scanning w' = scanning w.
Proof.
  intros Hno.
  assert (Hs : Csc.sample data = None).
  { apply sample_none. destruct Hno as [Hlen | (f & rest & -> & Hflag)].
    - left. exact Hlen.
    - right. exists f, rest. split; [ reflexivity | ].
      pose proof (flag_bit0 (byte_val f)) as Hb. rewrite Hflag in Hb.
      cbn [Z.eqb] in Hb. destruct (Z.testbit (byte_val f) 0);
        [ discriminate | reflexivity ]. }
  rewrite (processBLESpeed_no_sample m data w Hs).
  eexists. split; [ reflexivity | ].
  destruct data; repeat split.
Qed.

(** Wheel bit set, but the payload stops after the revolutions. *)
Definition truncated : list byte := [x01; xe9; x03; x00; x00].

Lemma payload_without_wheel_data_truncated :
  exists w',
    processBLESpeed kmh truncated (after kmh rev1000_t1024 start)
    = Returns (0%float, w') /\
    varsOf w' = varsOf (after kmh rev1000_t1024 start) /\
    speedUpdates w' = speedUpdates (after kmh rev1000_t1024 start) /\
    scanning w' = scanning (after kmh rev1000_t1024 start).
Proof.
  apply (payload_without_wheel_data kmh truncated
           (after kmh rev1000_t1024 start)).
  left. cbn. lia.
Defined.

(** X2.  The decoder returns on every byte slice, in every state: the length
    tests keep its index and slice expressions and the two little-endian
    reads in range, so it never panics; and the variables it leaves behind
    are again a 32-bit and a 16-bit unsigned value. *)
Theorem decoder_never_panics (m : BLEController) (data : list byte) (w : world) :
  exists v w',
    processBLESpeed m data w = Returns (v, w') /\
    (wellTyped w -> wellTyped w').
Proof.
  destruct (processBLESpeed_returns m data w) as (v & w' & Hrun).
  exists v, w'. split; [ exact Hrun | ].
  intros Hw. apply (processBLESpeed_wellTyped m data w w' v Hw Hrun).
Qed.

(** X3.  Only the first seven bytes of a payload are looked at: whatever
    follows them (crank data, for one) changes nothing. *)
Theorem bytes_after_the_seventh_are_ignored (m : BLEController)
    (data : list byte) (w : world) :
  processBLESpeed m (firstn 7 data) w = processBLESpeed m data w.
Proof.
  destruct data as [|f [|r0 [|r1 [|r2 [|r3 [|t0 [|t1 rest]]]]]]];
    reflexivity.
Qed.

(** X4.  With a baseline stored, the speed depends on the two samples only
    through their differences: revolutions modulo 2^32 and event times
    modulo 65536.  Two pairs of samples with the same differences give the
    same speed, wherever the counters stand and whether or not one of them
    has wrapped in between. *)
Theorem speed_depends_on_differences (m : BLEController)
    (data data' : list byte) (w w' : world) (revs time revs' time' : Z) :
  Csc.sample data = Some (revs, time) ->
  Csc.sample data' = Some (revs', time') ->
  lastWheelTime w <> 0 ->
  lastWheelTime w' <> 0 ->
  (revs - lastWheelRevs w) mod 2 ^ 32 = (revs' - lastWheelRevs w') mod 2 ^ 32 ->
  (time - lastWheelTime w) mod 65536 = (time' - lastWheelTime w') mod 65536 ->
  speedOf (processBLESpeed m data w) = speedOf (processBLESpeed m data' w').
Proof.
  intros Hs Hs' Hbase Hbase' Hrevs Htime.
  rewrite (processBLESpeed_sample m data w revs time Hs).
  rewrite (processBLESpeed_sample m data' w' revs' time' Hs').
  apply Z.eqb_neq in Hbase. apply Z.eqb_neq in Hbase'.
  rewrite Hbase, Hbase'.
  rewrite !to_uint16_mod, Htime.
  rewrite (to_int32_congr _ _ Hrevs).
  destruct ((time' - lastWheelTime w') mod 65536 =? 0); reflexivity.
Qed.

(** The same second, before and across the wrap of the event time. *)
Definition rev1001_t1019 : list byte := [x01; xe9; x03; x00; x00; xfb; x03].

Lemma speed_depends_on_differences_across_wrap :
  speedOf (processBLESpeed kmh rev1001_t2048 (after kmh rev1000_t1024 start))
  = speedOf (processBLESpeed kmh rev1001_t1019 (after kmh rev1000_t65531 start)).
Proof.
  apply (speed_depends_on_differences kmh rev1001_t2048 rev1001_t1019
           (after kmh rev1000_t1024 start) (after kmh rev1000_t65531 start)
           1001 2048 1001 1019).
  - reflexivity.
  - reflexivity.
  - vm_compute. discriminate.
  - vm_compute. discriminate.
  - reflexivity.
  - reflexivity.
Defined.

(** X5.  The revolution counter may wrap.  When the counter has moved by
    [d] revolutions since the stored sample, forwards or backwards by less
    than 2^31, possibly through 2^32, the difference put into the formula
    is [d] itself. *)
Theorem revolution_counter_wraps (m : BLEController) (data : list byte)
    (w : world) (revs time d : Z) :
  Csc.sample data = Some (revs, time) ->
  lastWheelTime w <> 0 ->
  (time - lastWheelTime w) mod 65536 <> 0 ->
  - 2 ^ 31 <= d < 2 ^ 31 ->
  revs = (lastWheelRevs w + d) mod 2 ^ 32 ->
  speedOf (processBLESpeed m data w)
  = Csc.speed d (WheelCircumferenceMM (speedConfig m))
      (if String.eqb (SpeedUnits (speedConfig m)) "mph"
       then 2.23694%float else 3.6%float)
      ((time - lastWheelTime w) mod 65536).
Proof.
  intros Hs Hbase Hdelta Hd Hrevs.
  rewrite (processBLESpeed_sample m data w revs time Hs).
  apply Z.eqb_neq in Hbase. rewrite Hbase.
  rewrite to_uint16_mod.
  apply Z.eqb_neq in Hdelta. rewrite Hdelta.
  cbn [speedOf].
  assert (Hdiff : to_int32 (revs - lastWheelRevs w) = d).
  { rewrite <- (to_int32_small d Hd). apply to_int32_congr.
    rewrite Hrevs. rewrite Zminus_mod_idemp_l.
    f_equal. lia. }
  rewrite Hdiff. reflexivity.
Qed.

(** The counter at its last value, then at 0 one second later. *)
Definition revMax_t1024 : list byte := [x01; xff; xff; xff; xff; x00; x04].
Definition rev0_t2048 : list byte := [x01; x00; x00; x00; x00; x00; x08].

Lemma revolution_counter_wraps_at_the_top :
  speedOf (processBLESpeed kmh rev0_t2048 (after kmh revMax_t1024 start))
  = Csc.speed 1 2105 3.6%float 1024.
Proof.
  apply (revolution_counter_wraps kmh rev0_t2048 (after kmh revMax_t1024 start)
           0 2048 1).
  - reflexivity.
  - vm_compute. discriminate.
  - vm_compute. discriminate.
  - lia.
  - reflexivity.
Defined.

(** X6.  A notification whose event time equals the stored one costs no
    revolutions: the variables stay, so the next notification is decoded
    exactly as if the one in between had not come, its revolutions counted
    from the baseline before. *)
Theorem zero_delta_loses_no_revolutions (m : BLEController)
    (repeated next : list byte) (w : world) (revs : Z) :
  Csc.sample repeated = Some (revs, lastWheelTime w) ->
  lastWheelTime w <> 0 ->
  speedOf (processBLESpeed m next (after m repeated w))
  = speedOf (processBLESpeed m next w) /\
  varsOf (after m next (after m repeated w)) = varsOf (after m next w).
Proof.
  intros Hs Hbase.
  apply processBLESpeed_vars; [ reflexivity | ].
  unfold after.
  rewrite (processBLESpeed_sample m repeated w revs _ Hs).
  apply Z.eqb_neq in Hbase. rewrite Hbase.
  rewrite Z.sub_diag. reflexivity.
Qed.

Lemma zero_delta_loses_no_revolutions_example :
  speedOf (processBLESpeed kmh rev1003_t512
             (after kmh rev1002_t1024 (after kmh rev1000_t1024 start)))
  = speedOf (processBLESpeed kmh rev1003_t512 (after kmh rev1000_t1024 start)) /\
  varsOf (after kmh rev1003_t512
            (after kmh rev1002_t1024 (after kmh rev1000_t1024 start)))
  = varsOf (after kmh rev1003_t512 (after kmh rev1000_t1024 start)).
Proof.
  apply (zero_delta_loses_no_revolutions kmh rev1002_t1024 rev1003_t512
           (after kmh rev1000_t1024 start) 1002).
  - reflexivity.
  - vm_compute. discriminate.
Defined.

(* ================================================================== *)
(** ** More on the notification monitor *)

(** The notifications delivered before the context is cancelled. *)
Fixpoint delivered (events : list event) : list (list byte) :=
  match events with
  | [] => []
  | CtxCancelled :: _ => []
  | ConnectionLost :: rest => delivered rest
  | Notification buf :: rest => buf :: delivered rest
  end.

(** Payloads decoded one after the other: the speeds, and the package
    afterwards. *)
Fixpoint decodeEach (m : BLEController) (bufs : list (list byte)) (w : world)
  : list float * world :=
  match bufs with
  | [] => ([], w)
  | buf :: rest =>
      let '(speeds, w') := decodeEach m rest (after m buf w) in
      (speedOf (processBLESpeed m buf w) :: speeds, w')
  end.





(** Two notifications, a lost connection, the cancellation, and a
    notification that comes too late. *)
Definition session : list event :=
  [Notification rev1000_t1024; Notification rev1001_t2048; ConnectionLost;
   CtxCancelled; Notification rev1003_t512].


Example session_speeds :
  fst (decodeEach kmh (delivered session) start) = [0%float; 7.400390625%float].
Proof. reflexivity. Qed.

(* ================================================================== *)
(** ** More on the peripheral resolver *)

Lemma find_first {A} (p : A -> bool) (before after : list A) (x : A) :
  find p before = None -> p x = true ->
  find p (before ++ x :: after) = Some x.
Proof.
  intros Hnone Hx. induction before as [|b before IH]; cbn [find app] in *.
  - rewrite Hx. reflexivity.
  - destruct (p b); [ discriminate | ]. apply IH. exact Hnone.
Qed.

(** X8.  The scan returns the first advertisement whose address is the
    configured one: advertisements of other devices before it are passed
    over, whatever comes after it is not looked at, and the scan is stopped
    (a StopScan that fails is logged and changes nothing in the result). *)
Theorem scan_returns_first_match (m : BLEController) (pick : selectCase)
    (bt : bluetooth) (w : world) (before after : list ScanResult)
    (result : ScanResult) :
  Scan bt = None ->
  adverts bt = (before ++ result :: after)%list ->
  find (isSensor m) before = None ->
  Address result = SensorUUID (bleConfig m) ->
  exists w',
    scanForBLEPeripheral m Background false pick bt w
    = Returns (result, None, w') /\
    (StopScan bt = None -> scanning w' = false) /\
    varsOf w' = varsOf w.
Proof.
  intros Hscan Hadv Hbefore Haddr.
  assert (Hfind : find (isSensor m) (adverts bt) = Some result).
  { rewrite Hadv. apply find_first; [ exact Hbefore | ].
    unfold isSensor. rewrite Haddr. apply String.eqb_refl. }
  unfold scanForBLEPeripheral, scanGoroutine.
  rewrite Hscan. unfold isSensor in Hfind. rewrite Hfind.
  cbn [WithTimeout Background Err Done].
  eexists. split; [ reflexivity | ]. split.
  - intros Hstop. unfold stopScan. rewrite Hstop. reflexivity.
  - unfold stopScan. destruct (StopScan bt); reflexivity.
Qed.

(** Two strangers, then the sensor, then a stranger. *)
Definition crowded : bluetooth :=
  {| Scan := None;
     adverts := [{| Address := "11:22:33:44:55:66" |};
                 {| Address := "AA:BB:CC:DD:EE:FF" |};
                 {| Address := "F1:42:D8:DE:35:16" |};
                 {| Address := "00:00:00:00:00:01" |}];
     StopScan := Some (Foreign "not scanning");
     Connect := fun address => ({| devAddress := address |}, None);
     DiscoverServices := fun _ _ => ([{| svcUUID := 0x1816 |}], None);
     DiscoverCharacteristics := fun _ _ => ([{| charUUID := 0x2A5B |}], None) |}.

Lemma scan_returns_first_match_crowded :
  exists w',
    scanForBLEPeripheral kmh Background false caseFound crowded start
    = Returns ({| Address := "F1:42:D8:DE:35:16" |}, None, w') /\
    (StopScan crowded = None -> scanning w' = false) /\
    varsOf w' = varsOf start.
Proof.
  apply (scan_returns_first_match kmh caseFound crowded start
           [{| Address := "11:22:33:44:55:66" |};
            {| Address := "AA:BB:CC:DD:EE:FF" |}]
           [{| Address := "00:00:00:00:00:01" |}]);
    reflexivity.
Defined.

(** X9.  Whatever the scan returns is accounted for: a result without
    error is an advertisement that was received and bears the configured
    address; the only error is "scanning time limit reached", returned with
    an empty result and only once the scan context is done. *)
Theorem scan_result_is_accounted_for (m : BLEController) (ctx : context)
    (elapsed : bool) (pick : selectCase) (bt : bluetooth) (w w' : world)
    (result : ScanResult) (e : option error) :
  scanForBLEPeripheral m ctx elapsed pick bt w = Returns (result, e, w') ->
  (e = None /\ In result (adverts bt) /\
   Address result = SensorUUID (bleConfig m) /\ Scan bt = None) \/
  (e = Some (ErrorsNew "scanning time limit reached") /\
   result = {| Address := "" |} /\
   (Err ctx <> None \/ elapsed = true)).
Proof.
  assert (Hdone : Done (WithTimeout ctx elapsed) = true ->
                  Err ctx <> None \/ elapsed = true).
  { unfold Done, WithTimeout. destruct (Err ctx); [ left; discriminate | ].
    destruct elapsed; [ right; reflexivity | discriminate ]. }
  unfold scanForBLEPeripheral, scanGoroutine.
  destruct (Scan bt) as [scanErr|] eqn:Hscan.
  - destruct (Done (WithTimeout ctx elapsed)); [ | discriminate ].
    intros H. injection H as <- <- _. right. auto.
  - destruct (find _ (adverts bt)) as [found|] eqn:Hfind.
    + apply find_some in Hfind. destruct Hfind as [Hin Haddr].
      apply String.eqb_eq in Haddr.
      destruct (Done (WithTimeout ctx elapsed)); [ destruct pick | ];
        intros H; injection H as <- <- _; auto.
    + destruct (Done (WithTimeout ctx elapsed)); [ | discriminate ].
      intros H. injection H as <- <- _. right. auto.
Qed.

Lemma scan_result_is_accounted_for_crowded :
  (@None error = None /\
   In {| Address := "F1:42:D8:DE:35:16" |} (adverts crowded) /\
   Address {| Address := "F1:42:D8:DE:35:16" |} = SensorUUID (bleConfig kmh) /\
   Scan crowded = None) \/
  (None = Some (ErrorsNew "scanning time limit reached") /\
   {| Address := "F1:42:D8:DE:35:16" |} = {| Address := "" |} /\
   (Err Background <> None \/ false = true)).
Proof.
  eapply (scan_result_is_accounted_for kmh Background false caseFound crowded
            start).
  reflexivity.
Defined.

(** X10.  An error of the adapter's Scan call is logged and not returned:
    the function goes on waiting, finds nothing, and ends with the time
    limit error once the scan context is done, whatever was on the air. *)
Theorem scan_failure_is_only_logged (m : BLEController) (ctx : context)
    (elapsed : bool) (pick : selectCase) (bt : bluetooth) (w : world)
    (scanErr : error) :
  Scan bt = Some scanErr ->
  (Err ctx = None -> elapsed = false ->
   scanForBLEPeripheral m ctx elapsed pick bt w = Blocks) /\
  (Err ctx <> None \/ elapsed = true ->
   exists w',
     scanForBLEPeripheral m ctx elapsed pick bt w
     = Returns ({| Address := "" |},
                Some (ErrorsNew "scanning time limit reached"), w') /\
     In {| lvl := ERROR; text := "[BLE] Scan error: ";
           value := Text (Error scanErr) |} (logged w')).
Proof.
  intros Hscan. unfold scanForBLEPeripheral, scanGoroutine. rewrite Hscan.
  split.
  - intros Hctx ->. unfold Done, WithTimeout. rewrite Hctx. reflexivity.
  - intros Hdone.
    assert (Hd : Done (WithTimeout ctx elapsed) = true).
    { unfold Done, WithTimeout. destruct (Err ctx); [ reflexivity | ].
      destruct Hdone as [Hc | ->]; [ congruence | reflexivity ]. }
    rewrite Hd. eexists. split; [ reflexivity | ].
    unfold stopScan. destruct (StopScan bt); cbn [logged log setScanning];
      rewrite ?in_app_iff; cbn [In]; auto 6.
Qed.

(** An adapter that cannot scan, although the sensor is there. *)
Definition deaf : bluetooth :=
  {| Scan := Some (Foreign "adapter is powered off");
     adverts := [{| Address := "F1:42:D8:DE:35:16" |}];
     StopScan := None;
     Connect := fun address => ({| devAddress := address |}, None);
     DiscoverServices := fun _ _ => ([{| svcUUID := 0x1816 |}], None);
     DiscoverCharacteristics := fun _ _ => ([{| charUUID := 0x2A5B |}], None) |}.

Lemma scan_failure_is_only_logged_deaf :
  (Err Background = None -> true = false ->
   scanForBLEPeripheral kmh Background true caseFound deaf start = Blocks) /\
  (Err Background <> None \/ true = true ->
   exists w',
     scanForBLEPeripheral kmh Background true caseFound deaf start
     = Returns ({| Address := "" |},
                Some (ErrorsNew "scanning time limit reached"), w') /\
     In {| lvl := ERROR; text := "[BLE] Scan error: ";
           value := Text (Error (Foreign "adapter is powered off")) |}
        (logged w')).
Proof.
  apply (scan_failure_is_only_logged kmh Background true caseFound deaf start
           (Foreign "adapter is powered off")).
  reflexivity.
Defined.

(** The scan leaves the decoder's variables and the speed samples alone. *)
Lemma scanForBLEPeripheral_frame (m : BLEController) (ctx : context)
    (elapsed : bool) (pick : selectCase) (bt : bluetooth) (w w' : world)
    (result : ScanResult) (e : option error) :
  scanForBLEPeripheral m ctx elapsed pick bt w = Returns (result, e, w') ->
  varsOf w' = varsOf w /\ speedUpdates w' = speedUpdates w.
Proof.
  unfold scanForBLEPeripheral, scanGoroutine, stopScan.
  destruct (Scan bt); [ | destruct (find _ (adverts bt)) ];
    destruct (Done (WithTimeout ctx elapsed)); try destruct pick;
    try discriminate;
    destruct (StopScan bt); intros H; injection H as _ _ <-;
    split; reflexivity.
Qed.

(** What [GetBLECharacteristic] can return, and what it leaves alone. *)
Lemma GetBLECharacteristic_returns (m : BLEController)
    (ctx : context) (elapsed : bool) (pick : selectCase) (bt : bluetooth)
    (w w' : world) (char : option DeviceCharacteristic) (e : option error) :
  GetBLECharacteristic m ctx elapsed pick bt w = Returns (char, e, w') ->
  ((char = None /\ e <> None) \/ (char <> None /\ e = None)) /\
  varsOf w' = varsOf w /\ speedUpdates w' = speedUpdates w.
Proof.
  unfold GetBLECharacteristic.
  destruct (scanForBLEPeripheral m ctx elapsed pick bt w)
    as [[[result scanErr] w1]| |] eqn:Hscan; cbn [Go.bind];
    try discriminate.
  destruct (scanForBLEPeripheral_frame m ctx elapsed pick bt w w1 result
              scanErr Hscan) as [Hvars Hupd].
  destruct scanErr as [err|].
  { intros H; injection H as <- <- <-.
    split; [ left; split; [ reflexivity | discriminate ] | auto ]. }
  destruct (Connect bt (Address result)) as [device [err|]].
  { intros H; injection H as <- <- <-.
    split; [ left; split; [ reflexivity | discriminate ] | auto ]. }
  destruct (DiscoverServices bt device [New16BitUUID 0x1816])
    as [svc [err|]].
  { intros H; injection H as <- <- <-.
    split; [ left; split; [ reflexivity | discriminate ] | auto ]. }
  destruct svc as [|svc0 svcs]; cbn [index nth_error Go.bind];
    [ discriminate | ].
  destruct (DiscoverCharacteristics bt svc0 [New16BitUUID 0x2A5B])
    as [chars [err|]].
  { intros H; injection H as <- <- <-.
    split; [ left; split; [ reflexivity | discriminate ] | auto ]. }
  destruct chars as [|char0 chars]; cbn [index nth_error Go.bind];
    [ discriminate | ].
  intros H; injection H as <- <- <-.
  split; [ right; split; [ discriminate | reflexivity ] | auto ].
Qed.

(** X11.  The resolver returns a characteristic or an error, never both and
    never neither; so a caller that finds the error nil holds a
    characteristic.  The decoder's variables and the speed samples are as
    they were before the call. *)
Theorem resolver_returns_characteristic_or_error (m : BLEController)
    (ctx : context) (elapsed : bool) (pick : selectCase) (bt : bluetooth)
    (w w' : world) (char : option DeviceCharacteristic) (e : option error) :
  GetBLECharacteristic m ctx elapsed pick bt w = Returns (char, e, w') ->
  ((char = None /\ e <> None) \/ (char <> None /\ e = None)) /\
  varsOf w' = varsOf w /\ speedUpdates w' = speedUpdates w.
Proof.
  apply GetBLECharacteristic_returns.
Qed.

Lemma resolver_returns_characteristic_or_error_crowded :
  exists w',
    GetBLECharacteristic kmh Background false caseFound crowded
      (after kmh rev1000_t1024 start)
    = Returns (Some {| charUUID := 0x2A5B |}, None, w') /\
    ((Some {| charUUID := 0x2A5B |} = None /\ @None error <> None) \/
     (Some {| charUUID := 0x2A5B |} <> None /\ @None error = None)) /\
    varsOf w' = varsOf (after kmh rev1000_t1024 start) /\
    speedUpdates w' = speedUpdates (after kmh rev1000_t1024 start).
Proof.
  eexists. split; [ reflexivity | ].
  apply (resolver_returns_characteristic_or_error kmh Background false
           caseFound crowded (after kmh rev1000_t1024 start)).
  reflexivity.
Defined.

(** X12.  When the sensor is found, connects, and both discoveries return
    a non-empty list without error, the resolver returns the first
    characteristic of the first service; further services and
    characteristics in the lists are not looked at. *)
Theorem resolver_returns_first_characteristic (m : BLEController)
    (ctx : context) (elapsed : bool) (pick : selectCase) (bt : bluetooth)
    (w w1 : world) (result : ScanResult) (device : Device)
    (svc0 : DeviceService) (svcs : list DeviceService)
    (char0 : DeviceCharacteristic) (chars : list DeviceCharacteristic) :
  scanForBLEPeripheral m ctx elapsed pick bt w = Returns (result, None, w1) ->
  Connect bt (Address result) = (device, None) ->
  DiscoverServices bt device [New16BitUUID 0x1816] = (svc0 :: svcs, None) ->
  DiscoverCharacteristics bt svc0 [New16BitUUID 0x2A5B] = (char0 :: chars, None) ->
  exists w',
    GetBLECharacteristic m ctx elapsed pick bt w = Returns (Some char0, None, w').
Proof.
  intros Hscan Hconn Hsvc Hchar.
  unfold GetBLECharacteristic. rewrite Hscan. cbn [Go.bind].
  rewrite Hconn, Hsvc. cbn [index nth_error Go.bind].
  rewrite Hchar. cbn [index nth_error Go.bind].
  eexists. reflexivity.
Qed.

(** A sensor with two services and two characteristics in the first. *)
Definition generous : bluetooth :=
  {| Scan := None;
     adverts := [{| Address := "F1:42:D8:DE:35:16" |}];
     StopScan := None;
     Connect := fun address => ({| devAddress := address |}, None);
     DiscoverServices :=
       fun _ _ => ([{| svcUUID := 0x1816 |}; {| svcUUID := 0x180F |}], None);
     DiscoverCharacteristics :=
       fun _ _ => ([{| charUUID := 0x2A5B |}; {| charUUID := 0x2A5C |}], None) |}.

Lemma resolver_returns_first_characteristic_generous :
  exists w',
    GetBLECharacteristic kmh Background false caseFound generous start
    = Returns (Some {| charUUID := 0x2A5B |}, None, w').
Proof.
  eapply (resolver_returns_first_characteristic kmh Background false caseFound
            generous start); reflexivity.
Defined.

(** X13.  After a scan that found the sensor, an error of Connect, of
    DiscoverServices or of DiscoverCharacteristics ends the resolution: it
    is returned as it is, with no characteristic, whatever list came with
    it. *)
Theorem resolver_returns_library_errors (m : BLEController) (ctx : context)
    (elapsed : bool) (pick : selectCase) (bt : bluetooth) (w w1 : world)
    (result : ScanResult) :
  scanForBLEPeripheral m ctx elapsed pick bt w = Returns (result, None, w1) ->
  (forall device e,
     Connect bt (Address result) = (device, Some e) ->
     exists w',
       GetBLECharacteristic m ctx elapsed pick bt w = Returns (None, Some e, w')) /\
  (forall device svcs e,
     Connect bt (Address result) = (device, None) ->
     DiscoverServices bt device [New16BitUUID 0x1816] = (svcs, Some e) ->
     exists w',
       GetBLECharacteristic m ctx elapsed pick bt w = Returns (None, Some e, w')) /\
  (forall device svc0 svcs chars e,
     Connect bt (Address result) = (device, None) ->
     DiscoverServices bt device [New16BitUUID 0x1816] = (svc0 :: svcs, None) ->
     DiscoverCharacteristics bt svc0 [New16BitUUID 0x2A5B] = (chars, Some e) ->
     exists w',
       GetBLECharacteristic m ctx elapsed pick bt w = Returns (None, Some e, w')).
Proof.
  intros Hscan. unfold GetBLECharacteristic. rewrite Hscan. cbn [Go.bind].
  repeat split.
  - intros device e Hconn. rewrite Hconn. eexists. reflexivity.
  - intros device svcs e Hconn Hsvc. rewrite Hconn, Hsvc.
    eexists. reflexivity.
  - intros device svc0 svcs chars e Hconn Hsvc Hchar.
    rewrite Hconn, Hsvc. cbn [index nth_error Go.bind]. rewrite Hchar.
    eexists. reflexivity.
Qed.

(** The sensor is heard but refuses the connection. *)
Definition refusing : bluetooth :=
  {| Scan := None;
     adverts := [{| Address := "F1:42:D8:DE:35:16" |}];
     StopScan := None;
     Connect := fun address =>
                  ({| devAddress := address |}, Some (Foreign "connection refused"));
     DiscoverServices := fun _ _ => ([{| svcUUID := 0x1816 |}], None);
     DiscoverCharacteristics := fun _ _ => ([{| charUUID := 0x2A5B |}], None) |}.

Lemma resolver_returns_library_errors_refusing :
  exists w',
    GetBLECharacteristic kmh Background false caseFound refusing start
    = Returns (None, Some (Foreign "connection refused"), w').
Proof.
  edestruct (resolver_returns_library_errors kmh Background false caseFound
               refusing start) as (Hconn & _ & _); [ reflexivity | ].
  apply (Hconn {| devAddress := "F1:42:D8:DE:35:16" |}
           (Foreign "connection refused")).
  reflexivity.
Defined.

(** The resolver when the scan context is done with nothing matched. *)
Lemma scan_done_core (m : BLEController) (ctx : context) (elapsed : bool)
    (pick : selectCase) (bt : bluetooth) (w : world) :
  find (isSensor m) (adverts bt) = None ->
  Done (WithTimeout ctx elapsed) = true ->
  exists w',
    GetBLECharacteristic m ctx elapsed pick bt w
    = Returns (None, Some (ErrorsNew "scanning time limit reached"), w').
Proof.
  intros Hnone Hd.
  pose proof (scanGoroutine_no_match m bt w Hnone) as Hfound.
  unfold GetBLECharacteristic, scanForBLEPeripheral. rewrite Hd.
  destruct (scanGoroutine m bt w) as [found w1]. cbn [fst] in Hfound.
  subst found. eexists. reflexivity.
Qed.

(* ================================================================== *)
(** ** Package [main]: scanForBLESpeedCharacteristic *)

(** The ready case its select takes when the context is done and the
    goroutine has delivered as well. *)
Inductive scanSelect : Type := takeDone | takeDelivered.

(** [scanForBLESpeedCharacteristic]: the goroutine runs
    [GetBLECharacteristic] and puts its error on [errChan], or else its
    characteristic on [results]; the select takes [ctx.Done()], [errChan] or
    [results].  [ctx] is the context as the scan inside sees it, [ctxAfter]
    as this select sees it.  The goroutine's effects on the package are kept
    whichever case is taken. *)
Definition scanForBLESpeedCharacteristic (m : BLEController)
    (ctx ctxAfter : context) (elapsed : bool) (pick : selectCase)
    (outer : scanSelect) (bt : bluetooth) (w : world)
  : outcome (option DeviceCharacteristic * option error * world) :=
  match GetBLECharacteristic m ctx elapsed pick bt w with
  | Panics why => Panics why
  | Blocks =>
      match Err ctxAfter with
      | Some e => Returns (None, Some e, w)
      | None => Blocks
      end
  | Returns (characteristic, err, w') =>
      let delivered :=
        match err with
        | Some e => Returns (None, Some e, w')
        | None => Returns (characteristic, None, w')
        end in
      match Err ctxAfter, outer with
      | Some e, takeDone => Returns (None, Some e, w')
      | _, _ => delivered
      end
  end.

(** X14.  Whatever [scanForBLESpeedCharacteristic] returns is a
    characteristic without error or an error without characteristic; the
    characteristic is the resolver's, and the error is the resolver's or, if
    the context is done, the context's. *)
Theorem app_scan_result_is_accounted_for (m : BLEController)
    (ctx ctxAfter : context) (elapsed : bool) (pick : selectCase)
    (outer : scanSelect) (bt : bluetooth) (w w' : world)
    (char : option DeviceCharacteristic) (e : option error) :
  scanForBLESpeedCharacteristic m ctx ctxAfter elapsed pick outer bt w
  = Returns (char, e, w') ->
  (char <> None /\ e = None /\
   GetBLECharacteristic m ctx elapsed pick bt w = Returns (char, None, w')) \/
  (char = None /\ exists err, e = Some err /\
     (Err ctxAfter = Some err \/
      exists c, GetBLECharacteristic m ctx elapsed pick bt w
                = Returns (c, Some err, w'))).
Proof.
  unfold scanForBLESpeedCharacteristic.
  destruct (GetBLECharacteristic m ctx elapsed pick bt w)
    as [[[c err] w1]| |] eqn:Hres; try discriminate.
  - destruct (GetBLECharacteristic_returns m ctx elapsed pick bt
                w w1 c err Hres) as [[[-> Herr] | [Hc ->]] _].
    + destruct err as [err|]; [ | congruence ].
      destruct (Err ctxAfter) as [done|] eqn:Hdone; [ destruct outer | ];
        intros H; injection H as <- <- <-; right;
        (split; [ reflexivity | ]); eauto.
    + destruct (Err ctxAfter) as [done|] eqn:Hdone; [ destruct outer | ];
        intros H; injection H as <- <- <-.
      * right. split; [ reflexivity | ]. eauto.
      * left. auto.
      * left. auto.
  - destruct (Err ctxAfter) as [done|] eqn:Hdone; [ | discriminate ].
    intros H; injection H as <- <- <-. right. split; [ reflexivity | ]. eauto.
Qed.

Lemma app_scan_result_is_accounted_for_late_cancel :
  exists w',
    scanForBLESpeedCharacteristic kmh Background canceled false caseFound
      takeDone generous start
    = Returns (None, Some ContextCanceled, w') /\
    ((@None DeviceCharacteristic <> None /\ Some ContextCanceled = None /\
      GetBLECharacteristic kmh Background false caseFound generous start
      = Returns (None, None, w')) \/
     (@None DeviceCharacteristic = None /\
      exists err, Some ContextCanceled = Some err /\
        (Err canceled = Some err \/
         exists c, GetBLECharacteristic kmh Background false caseFound generous
                     start = Returns (c, Some err, w')))).
Proof.
  eexists. split; [ reflexivity | ].
  apply (app_scan_result_is_accounted_for kmh Background canceled false
           caseFound takeDone generous start).
  reflexivity.
Defined.

(** X15.  Cancelling the context while no matching advertisement has come
    makes [scanForBLESpeedCharacteristic] fail with the context's
    "context canceled" or with the scan's "scanning time limit reached",
    as its select happens to take them; [startAppControllers] then returns
    the component BLE with "BLE peripheral scan failed: " put before the
    error's text, and starts neither goroutine. *)
Theorem cancelled_scan_is_a_ble_failure (m : BLEController)
    (pick : selectCase) (outer : scanSelect) (bt : bluetooth) (w : world) :
  find (isSensor m) (adverts bt) = None ->
  exists e w' s,
    scanForBLESpeedCharacteristic m canceled canceled false pick outer bt w
    = Returns (None, Some e, w') /\
    (e = ContextCanceled \/ e = ErrorsNew "scanning time limit reached") /\
    run [Signal; Resolved (Some e)] init = Some s /\
    orchestrator s
    = Returned BLE (Some (ErrorsNew ("BLE peripheral scan failed: " ++ Error e))) /\
    monitor s = Idle /\ player s = Idle /\
    (forall l, step l s = None).
Proof.
  intros Hnone.
  destruct (scan_done_core m canceled false pick bt w Hnone eq_refl)
    as (w' & Hres).
  unfold scanForBLESpeedCharacteristic. rewrite Hres.
  cbn [Err canceled].
  destruct outer.
  - exists ContextCanceled, w'. eexists.
    split; [ reflexivity | ]. split; [ left; reflexivity | ].
    split; [ reflexivity | ]. repeat split.
    intros l. destruct l; reflexivity.
  - exists (ErrorsNew "scanning time limit reached"), w'. eexists.
    split; [ reflexivity | ]. split; [ right; reflexivity | ].
    split; [ reflexivity | ]. repeat split.
    intros l. destruct l; reflexivity.
Qed.

Lemma cancelled_scan_is_a_ble_failure_silence :
  exists e w' s,
    scanForBLESpeedCharacteristic kmh canceled canceled false caseDone takeDone
      silence start
    = Returns (None, Some e, w') /\
    (e = ContextCanceled \/ e = ErrorsNew "scanning time limit reached") /\
    run [Signal; Resolved (Some e)] init = Some s /\
    orchestrator s
    = Returned BLE (Some (ErrorsNew ("BLE peripheral scan failed: " ++ Error e))) /\
    monitor s = Idle /\ player s = Idle /\
    (forall l, step l s = None).
Proof.
  apply (cancelled_scan_is_a_ble_failure kmh caseDone takeDone silence start).
  reflexivity.
Defined.

(* ================================================================== *)
(** ** More on the orchestrator *)

Lemma run_snoc (schedule : list label) (l : label) (s0 s' : state) :
  run (schedule ++ [l]) s0 = Some s' ->
  exists s, run schedule s0 = Some s /\ step l s = Some s'.
Proof.
  rewrite run_app. destruct (run schedule s0) as [s|]; [ | discriminate ].
  cbn [run]. destruct (step l s) as [s1|] eqn:Hstep; [ | discriminate ].
  intros H; injection H as <-. exists s. split; [ reflexivity | exact Hstep ].
Qed.

(** The context is only ever cancelled: its error is [context.Canceled]. *)
Lemma ctx_is_canceled (schedule : list label) (s : state) (e : error) :
  run schedule init = Some s -> Err (ctx s) = Some e ->
  Err (ctx s) = Some ContextCanceled.
Proof.
  intros Hrun He.
  assert (H : Err (ctx s) = None \/ Err (ctx s) = Some ContextCanceled).
  { apply (run_invariant
             (fun x => Err (ctx x) = None \/ Err (ctx x) = Some ContextCanceled))
      with (schedule := schedule) (s := init).
    - intros l x x' Hx Hstep.
      assert (Hc : Err (cancel (ctx x)) = None \/
                   Err (cancel (ctx x)) = Some ContextCanceled).
      { unfold cancel. destruct Hx as [Hn | Hc]; rewrite ?Hn, ?Hc; auto. }
      step_cases Hstep;
        try match goal with
            | H : (if ?b then _ else _) = Some _ |- _ =>
                destruct b; [ injection H as <- | discriminate H ]
            end;
        cbn [ctx setCtx setErrs setMonitor setPlayer setOrchestrator ret
             canceled Err];
        auto.
    - left. reflexivity.
    - exact Hrun. }
  destruct H as [Hn | Hc]; [ congruence | exact Hc ].
Qed.

(** X16.  When resolving the characteristic fails, [startAppControllers]
    returns the component BLE and the error's text behind
    "BLE peripheral scan failed: "; neither goroutine is ever started and
    nothing is ever sent on the channel, whatever happens before or after. *)
Theorem resolution_failure_starts_nothing (before later : list label)
    (e : error) (s : state) :
  run (before ++ Resolved (Some e) :: later) init = Some s ->
  orchestrator s
  = Returned BLE (Some (ErrorsNew ("BLE peripheral scan failed: " ++ Error e))) /\
  monitor s = Idle /\ player s = Idle /\ errs s = [] /\
  Err (ctx s) = Some ContextCanceled.
Proof.
  rewrite run_app.
  destruct (run before init) as [s0|] eqn:Hbefore; [ | discriminate ].
  cbn [run]. destruct (step (Resolved (Some e)) s0) as [s1|] eqn:Hstep;
    [ | discriminate ].
  intros Hlater.
  pose proof (reachable_coherent before s0 Hbefore) as (_ & _ & _ & _ & Hres).
  cbn [step] in Hstep.
  destruct (orchestrator s0) eqn:Ho; try discriminate.
  destruct (Hres eq_refl) as (He & Hm & Hp).
  injection Hstep as <-.
  apply (run_invariant
           (fun x =>
              orchestrator x
              = Returned BLE
                  (Some (ErrorsNew ("BLE peripheral scan failed: " ++ Error e))) /\
              monitor x = Idle /\ player x = Idle /\ errs x = [] /\
              Err (ctx x) = Some ContextCanceled))
    with (schedule := later)
         (s := ret BLE
                 (Some (ErrorsNew ("BLE peripheral scan failed: " ++ Error e))) s0).
  - intros l x x' (Hox & Hmx & Hpx & Hex & Hcx) Hx.
    destruct l; cbn [step] in Hx;
      rewrite ?Hox, ?Hmx, ?Hpx, ?Hcx in Hx; discriminate.
  - cbn [ret orchestrator monitor player errs ctx]. unfold cancel.
    repeat split; try assumption.
    destruct (Err (ctx s0)) as [c|] eqn:Hc; [ | reflexivity ].
    exact (ctx_is_canceled before s0 c Hbefore Hc).
  - exact Hlater.
Qed.

Definition scanTimedOut : state :=
  {| ctx := canceled; errs := []; monitor := Idle; player := Idle;
     orchestrator :=
       Returned BLE
         (Some (ErrorsNew
                  "BLE peripheral scan failed: scanning time limit reached")) |}.

Lemma resolution_failure_starts_nothing_timeout :
  orchestrator scanTimedOut
  = Returned BLE
      (Some (ErrorsNew
               ("BLE peripheral scan failed: "
                ++ Error (ErrorsNew "scanning time limit reached")))) /\
  monitor scanTimedOut = Idle /\ player scanTimedOut = Idle /\
  errs scanTimedOut = [] /\
  Err (ctx scanTimedOut) = Some ContextCanceled.
Proof.
  apply (resolution_failure_starts_nothing [Signal] []
           (ErrorsNew "scanning time limit reached") scanTimedOut).
  reflexivity.
Defined.

(** Where a completion comes from, given the moves made so far: the
    player's is what [playVideo] returned; the monitor's is the error of the
    subscription or, when nil, follows a cancelled context, which a signal
    or the return of [startAppControllers] brings about. *)
Definition sentBy (history : list label) (returned : Prop)
    (ce : componentErr) : Prop :=
  match componentType ce, err ce with
  | VIDEO, r => In (PlayerReturn r) history
  | BLE, Some e => In (Subscribe (Some e)) history
  | BLE, None => In Signal history \/ returned
  | APP, _ => False
  end.

(** What accounts for a result of [startAppControllers]. *)
Definition accountedFor (history : list label) (c : ComponentType)
    (e : option error) : Prop :=
  match c, e with
  | APP, None => In (PlayerReturn None) history \/ In Signal history
  | APP, Some e => e = ContextCanceled /\ In Signal history
  | BLE, Some e =>
      In (Subscribe (Some e)) history \/
      exists e0, In (Resolved (Some e0)) history /\
                 e = ErrorsNew ("BLE peripheral scan failed: " ++ Error e0)
  | VIDEO, Some e => In (PlayerReturn (Some e)) history
  | BLE, None => False
  | VIDEO, None => False
  end.

Definition hasReturned (s : state) : Prop :=
  exists c e, orchestrator s = Returned c e.

Definition traced (history : list label) (s : state) : Prop :=
  (forall ce, In ce (errs s) -> sentBy history (hasReturned s) ce) /\
  (forall ce, monitor s = Sending ce -> sentBy history (hasReturned s) ce) /\
  (forall ce, player s = Sending ce -> sentBy history (hasReturned s) ce) /\
  (Err (ctx s) <> None -> In Signal history \/ hasReturned s) /\
  (forall e, Err (ctx s) = Some e -> e = ContextCanceled) /\
  (forall c e, orchestrator s = Returned c e -> accountedFor history c e).

Lemma sentBy_more (history : list label) (l : label) (P Q : Prop)
    (ce : componentErr) :
  (P -> Q) -> sentBy history P ce -> sentBy (history ++ [l]) Q ce.
Proof.
  unfold sentBy. intros HPQ.
  destruct (componentType ce); [ tauto | | ].
  - destruct (err ce); rewrite ?in_app_iff; tauto.
  - rewrite in_app_iff. tauto.
Qed.

Lemma accountedFor_more (history : list label) (l : label)
    (c : ComponentType) (e : option error) :
  accountedFor history c e -> accountedFor (history ++ [l]) c e.
Proof.
  unfold accountedFor.
  destruct c, e; rewrite ?in_app_iff; try tauto.
  intros [H | (e0 & H & ->)]; [ tauto | ].
  right. exists e0. rewrite in_app_iff. tauto.
Qed.

Lemma not_returned_yet (s : state) :
  orchestrator s = Resolving \/ orchestrator s = Selecting -> ~ hasReturned s.
Proof.
  intros [H | H] (c & e & Hr); congruence.
Qed.

Lemma step_traced (history : list label) (l : label) (s s' : state) :
  traced history s -> step l s = Some s' -> traced (history ++ [l]) s'.
Proof.
  intros (Hq & Hm & Hp & Hc & Hcan & Hr) Hstep.
  assert (Hkeep : forall ce, sentBy history (hasReturned s) ce ->
                  forall Q : Prop, (hasReturned s -> Q) ->
                  sentBy (history ++ [l]) Q ce)
    by (intros ce H Q HQ; apply (sentBy_more history l _ Q ce HQ H)).
  destruct l; cbn [step] in Hstep.
  - (* Signal *)
    destruct (Err (ctx s)); [ discriminate | ]. injection Hstep as <-.
    unfold traced. cbn [errs monitor player ctx orchestrator setCtx].
    repeat split.
    + intros ce Hin. apply (Hkeep ce (Hq ce Hin)). auto.
    + intros ce Hin. apply (Hkeep ce (Hm ce Hin)). auto.
    + intros ce Hin. apply (Hkeep ce (Hp ce Hin)). auto.
    + intros _. left. rewrite in_app_iff. right. left. reflexivity.
    + intros e H. injection H as <-. reflexivity.
    + intros c e H. apply accountedFor_more. apply (Hr c e H).
  - (* Resolved *)
    destruct (orchestrator s) eqn:Ho; try discriminate.
    assert (Hnot : ~ hasReturned s) by (apply not_returned_yet; auto).
    destruct r as [e0|]; injection Hstep as <-; unfold traced;
      cbn [errs monitor player ctx orchestrator ret setOrchestrator setPlayer
           setMonitor].
    + repeat split.
      * intros ce Hin. apply (Hkeep ce (Hq ce Hin)). tauto.
      * intros ce Hin. apply (Hkeep ce (Hm ce Hin)). tauto.
      * intros ce Hin. apply (Hkeep ce (Hp ce Hin)). tauto.
      * intros _. right. unfold hasReturned. cbn. eauto.
      * intros e. unfold cancel.
        destruct (Err (ctx s)) eqn:Hctx; [ rewrite Hctx; apply Hcan | ].
        cbn. intros H; injection H as <-; reflexivity.
      * intros c e H. injection H as <- <-. cbn [accountedFor].
        right. exists e0. rewrite in_app_iff. cbn. auto.
    + repeat split; try discriminate.
      * intros ce Hin. apply (Hkeep ce (Hq ce Hin)). tauto.
      * intros Hctx. destruct (Hc Hctx) as [Hs | Hs]; [ | tauto ].
        left. rewrite in_app_iff. auto.
      * exact Hcan.
  - (* Subscribe *)
    destruct (monitor s) eqn:Hmon; try discriminate.
    destruct r as [e0|]; injection Hstep as <-; unfold traced;
      cbn [errs monitor player ctx orchestrator setMonitor]; repeat split;
      try discriminate; try exact Hcan.
    all: try (intros ce Hin; first [ apply (Hkeep ce (Hq ce Hin))
                                   | apply (Hkeep ce (Hp ce Hin)) ]; auto).
    all: try (intros Hctx; destruct (Hc Hctx) as [Hs | Hs];
              [ left; rewrite in_app_iff; auto | right; exact Hs ]).
    all: try (intros c e H; apply accountedFor_more; apply (Hr c e H)).
    intros ce H. injection H as <-. unfold sentBy. cbn.
    rewrite in_app_iff. cbn. auto.
  - (* MonitorDone *)
    destruct (monitor s) eqn:Hmon; try discriminate.
    destruct (Done (ctx s)) eqn:Hd; [ | discriminate ].
    injection Hstep as <-; unfold traced;
      cbn [errs monitor player ctx orchestrator setMonitor]; repeat split;
      try exact Hcan.
    all: try (intros ce Hin; first [ apply (Hkeep ce (Hq ce Hin))
                                   | apply (Hkeep ce (Hp ce Hin)) ]; auto).
    all: try (intros Hctx; destruct (Hc Hctx) as [Hs | Hs];
              [ left; rewrite in_app_iff; auto | right; exact Hs ]).
    all: try (intros c e H; apply accountedFor_more; apply (Hr c e H)).
    intros ce H. injection H as <-. unfold sentBy. cbn.
    assert (Hctx : Err (ctx s) <> None)
      by (unfold Done in Hd; destruct (Err (ctx s)); discriminate).
    destruct (Hc Hctx) as [Hs | Hs];
      [ left; rewrite in_app_iff; auto | right; exact Hs ].
  - (* MonitorSend *)
    destruct (monitor s) eqn:Hmon; try discriminate.
    unfold send in Hstep.
    destruct (List.length (errs s) <? capacity)%nat; [ | discriminate ].
    injection Hstep as <-; unfold traced;
      cbn [errs monitor player ctx orchestrator setMonitor setErrs];
      repeat split; try discriminate; try exact Hcan.
    all: try (intros x Hin; apply in_app_iff in Hin;
              destruct Hin as [Hin | [<- | []]];
              [ apply (Hkeep x (Hq x Hin)) | apply (Hkeep ce (Hm ce eq_refl)) ];
              auto).
    all: try (intros x Hin; apply (Hkeep x (Hp x Hin)); auto).
    all: try (intros Hctx; destruct (Hc Hctx) as [Hs | Hs];
              [ left; rewrite in_app_iff; auto | right; exact Hs ]).
    all: try (intros c e H; apply accountedFor_more; apply (Hr c e H)).
  - (* PlayerReturn *)
    destruct (player s) eqn:Hply; try discriminate.
    injection Hstep as <-; unfold traced;
      cbn [errs monitor player ctx orchestrator setPlayer]; repeat split;
      try exact Hcan.
    all: try (intros ce Hin; first [ apply (Hkeep ce (Hq ce Hin))
                                   | apply (Hkeep ce (Hm ce Hin)) ]; auto).
    all: try (intros Hctx; destruct (Hc Hctx) as [Hs | Hs];
              [ left; rewrite in_app_iff; auto | right; exact Hs ]).
    all: try (intros c e H; apply accountedFor_more; apply (Hr c e H)).
    intros ce H. injection H as <-. unfold sentBy. cbn.
    rewrite in_app_iff. cbn. auto.
  - (* PlayerSend *)
    destruct (player s) eqn:Hply; try discriminate.
    unfold send in Hstep.
    destruct (List.length (errs s) <? capacity)%nat; [ | discriminate ].
    injection Hstep as <-; unfold traced;
      cbn [errs monitor player ctx orchestrator setPlayer setErrs];
      repeat split; try discriminate; try exact Hcan.
    all: try (intros x Hin; apply in_app_iff in Hin;
              destruct Hin as [Hin | [<- | []]];
              [ apply (Hkeep x (Hq x Hin)) | apply (Hkeep ce (Hp ce eq_refl)) ];
              auto).
    all: try (intros x Hin; apply (Hkeep x (Hm x Hin)); auto).
    all: try (intros Hctx; destruct (Hc Hctx) as [Hs | Hs];
              [ left; rewrite in_app_iff; auto | right; exact Hs ]).
    all: try (intros c e H; apply accountedFor_more; apply (Hr c e H)).
  - (* SelectDone *)
    destruct (orchestrator s) eqn:Ho; try discriminate.
    assert (Hnot : ~ hasReturned s) by (apply not_returned_yet; auto).
    destruct (Err (ctx s)) as [e0|] eqn:Hctx; [ | discriminate ].
    injection Hstep as <-; unfold traced;
      cbn [errs monitor player ctx orchestrator ret]; repeat split.
    + intros ce Hin. apply (Hkeep ce (Hq ce Hin)). tauto.
    + intros ce Hin. apply (Hkeep ce (Hm ce Hin)). tauto.
    + intros ce Hin. apply (Hkeep ce (Hp ce Hin)). tauto.
    + intros _. right. unfold hasReturned. cbn. eauto.
    + unfold cancel. rewrite Hctx. rewrite Hctx. exact Hcan.
    + intros c e H. injection H as <- <-. cbn [accountedFor].
      split; [ apply Hcan; reflexivity | ].
      destruct Hc as [Hs | Hs]; [ congruence | | tauto ].
      rewrite in_app_iff. auto.
  - (* SelectErrs *)
    destruct (orchestrator s) eqn:Ho; try discriminate.
    assert (Hnot : ~ hasReturned s) by (apply not_returned_yet; auto).
    destruct (errs s) as [|compErr rest] eqn:He; [ discriminate | ].
    pose proof (Hq compErr (or_introl eq_refl)) as Hfirst.
    destruct (err compErr) as [e0|] eqn:Herr; injection Hstep as <-;
      unfold traced; cbn [errs monitor player ctx orchestrator ret setErrs];
      repeat split.
    all: try (intros ce Hin; first [ apply (Hkeep ce (Hq ce (or_intror Hin)))
                                   | apply (Hkeep ce (Hm ce Hin))
                                   | apply (Hkeep ce (Hp ce Hin)) ]; tauto).
    all: try (intros _; right; unfold hasReturned; cbn; eauto).
    all: try (intros e; unfold cancel;
              destruct (Err (ctx s)) eqn:Hctx; [ rewrite Hctx; apply Hcan | ];
              cbn; intros H; injection H as <-; reflexivity).
    + intros c e H. injection H as <- <-.
      apply accountedFor_more. unfold sentBy in Hfirst. rewrite Herr in Hfirst.
      unfold accountedFor. destruct (componentType compErr); tauto.
    + intros c e H. injection H as <- <-.
      apply accountedFor_more. unfold sentBy in Hfirst. rewrite Herr in Hfirst.
      unfold accountedFor. destruct (componentType compErr); tauto.
Qed.

Lemma reachable_traced (schedule : list label) (s : state) :
  run schedule init = Some s -> traced schedule s.
Proof.
  revert s. induction schedule as [|l schedule IH] using rev_ind; intros s Hrun.
  - cbn [run] in Hrun. injection Hrun as <-.
    unfold traced, init; cbn. repeat split; try discriminate; try tauto.
  - apply run_snoc in Hrun. destruct Hrun as (s0 & Hrun & Hstep).
    apply (step_traced schedule l s0 s (IH s0 Hrun) Hstep).
Qed.

(** X17.  Every result of [startAppControllers] is accounted for by what
    happened before it.  An error with component VIDEO is an error
    [playVideo] returned; with component BLE it is the error of the
    subscription, or that of a failed resolution behind its prefix; with
    component APP it is "context canceled" and a signal (or the caller's
    cancellation) has come.  The result (APP, nil) means that [playVideo]
    returned nil or that a signal has come; and nil is never returned under
    the name of BLE or VIDEO. *)
Theorem orchestrator_result_is_accounted_for (schedule : list label) (s : state)
    (c : ComponentType) (e : option error) :
  run schedule init = Some s ->
  orchestrator s = Returned c e ->
  accountedFor schedule c e.
Proof.
  intros Hrun Ho.
  destruct (reachable_traced schedule s Hrun) as (_ & _ & _ & _ & _ & Hr).
  apply (Hr c e Ho).
Qed.

(** A signal arrives while both activities run; the select takes the
    context. *)
Definition interrupted : list label :=
  [Resolved None; Subscribe None; Signal; SelectDone].

Definition interruptedState : state :=
  {| ctx := canceled; errs := []; monitor := AwaitingDone; player := Playing;
     orchestrator := Returned APP (Some ContextCanceled) |}.

Lemma orchestrator_result_is_accounted_for_interrupted :
  accountedFor interrupted APP (Some ContextCanceled).
Proof.
  apply (orchestrator_result_is_accounted_for interrupted interruptedState);
    reflexivity.
Defined.

(** X18.  The goroutine that is first to finish never waits at its send:
    as long as the other goroutine has not sent, the channel is empty. *)
Theorem first_send_never_blocks (schedule : list label) (s : state) :
  run schedule init = Some s ->
  (forall ce, monitor s = Sending ce -> player s <> Finished ->
              exists s', step MonitorSend s = Some s' /\ monitor s' = Finished /\
                         errs s' = [ce]) /\
  (forall ce, player s = Sending ce -> monitor s <> Finished ->
              exists s', step PlayerSend s = Some s' /\ player s' = Finished /\
                         errs s' = [ce]).
Proof.
  intros Hrun.
  destruct (reachable_coherent schedule s Hrun) as (_ & Hmem & _ & _ & _).
  assert (Hempty : monitor s <> Finished -> player s <> Finished -> errs s = []).
  { intros Hm Hp. destruct (errs s) as [|x q] eqn:He; [ reflexivity | ].
    destruct (Hmem x) as [[_ H] | [_ H]]; [ left; reflexivity | | ];
      contradiction. }
  split.
  - intros ce Hm Hp.
    assert (He : errs s = []) by (apply Hempty; [ congruence | exact Hp ]).
    cbn [step]. rewrite Hm. unfold send. rewrite He. cbn.
    eexists. split; [ reflexivity | ]. split; reflexivity.
  - intros ce Hp Hm.
    assert (He : errs s = []) by (apply Hempty; [ exact Hm | congruence ]).
    cbn [step]. rewrite Hp. unfold send. rewrite He. cbn.
    eexists. split; [ reflexivity | ]. split; reflexivity.
Qed.

(** The player has failed and is about to report it. *)
Definition playerReporting : state :=
  {| ctx := Background; errs := [];
     monitor := AwaitingDone;
     player := Sending {| componentType := VIDEO; err := Some playbackError |};
     orchestrator := Selecting |}.

Lemma first_send_never_blocks_player :
  (forall ce, monitor playerReporting = Sending ce ->
              player playerReporting <> Finished ->
              exists s', step MonitorSend playerReporting = Some s' /\
                         monitor s' = Finished /\ errs s' = [ce]) /\
  (forall ce, player playerReporting = Sending ce ->
              monitor playerReporting <> Finished ->
              exists s', step PlayerSend playerReporting = Some s' /\
                         player s' = Finished /\ errs s' = [ce]).
Proof.
  apply (first_send_never_blocks
           [Resolved None; Subscribe None; PlayerReturn (Some playbackError)]
           playerReporting).
  reflexivity.
Defined.

(** X19.  Once [startAppControllers] has returned with a completion still
    in the channel, the channel stays as it is: nobody receives from it, so
    a goroutine that is at its send then stays there for good.  This is
    what happens to the slower goroutine when the select has taken
    [ctx.Done()] instead of a completion. *)
Theorem second_sender_blocks_forever (s s' : state) (c : ComponentType)
    (e : option error) (later : list label) :
  orchestrator s = Returned c e ->
  List.length (errs s) = capacity ->
  run later s = Some s' ->
  errs s' = errs s /\
  (forall ce, player s = Sending ce ->
              player s' = Sending ce /\ step PlayerSend s' = None) /\
  (forall ce, monitor s = Sending ce ->
              monitor s' = Sending ce /\ step MonitorSend s' = None).
Proof.
  intros Ho Hfull Hlater.
  assert (Hinv : orchestrator s' = Returned c e /\ errs s' = errs s /\
                 (forall ce, player s = Sending ce -> player s' = Sending ce) /\
                 (forall ce, monitor s = Sending ce -> monitor s' = Sending ce)).
  { apply (run_invariant
             (fun x =>
                orchestrator x = Returned c e /\ errs x = errs s /\
                (forall ce, player s = Sending ce -> player x = Sending ce) /\
                (forall ce, monitor s = Sending ce -> monitor x = Sending ce)))
      with (schedule := later) (s := s).
    - intros l x x' (Hox & Hex & Hpx & Hmx) Hstep.
      destruct l; cbn [step] in Hstep.
      + destruct (Err (ctx x)); [ discriminate | ]. injection Hstep as <-.
        cbn. auto.
      + rewrite Hox in Hstep. discriminate.
      + destruct (monitor x) eqn:Hm; try discriminate.
        destruct r; injection Hstep as <-; cbn; repeat split; auto;
          intros ce Hs; specialize (Hmx ce Hs); congruence.
      + destruct (monitor x) eqn:Hm; try discriminate.
        destruct (Done (ctx x)); [ | discriminate ].
        injection Hstep as <-; cbn; repeat split; auto;
          intros ce Hs; specialize (Hmx ce Hs); congruence.
      + destruct (monitor x) eqn:Hm; try discriminate.
        unfold send in Hstep. rewrite Hex, Hfull in Hstep.
        cbn in Hstep. discriminate.
      + destruct (player x) eqn:Hp; try discriminate.
        injection Hstep as <-; cbn; repeat split; auto;
          intros ce Hs; specialize (Hpx ce Hs); congruence.
      + destruct (player x) eqn:Hp; try discriminate.
        unfold send in Hstep. rewrite Hex, Hfull in Hstep.
        cbn in Hstep. discriminate.
      + rewrite Hox in Hstep. discriminate.
      + rewrite Hox in Hstep. discriminate.
    - auto.
    - exact Hlater. }
  destruct Hinv as (Hox & Hex & Hpx & Hmx).
  split; [ exact Hex | ]. split.
  - intros ce Hs. split; [ apply Hpx; exact Hs | ].
    cbn [step]. rewrite (Hpx ce Hs). unfold send. rewrite Hex, Hfull.
    reflexivity.
  - intros ce Hs. split; [ apply Hmx; exact Hs | ].
    cbn [step]. rewrite (Hmx ce Hs). unfold send. rewrite Hex, Hfull.
    reflexivity.
Qed.

(** A signal; the select takes the context; the monitor unwinds and sends
    first; the player returns and finds the channel full. *)
Definition shutdown : list label :=
  [Resolved None; Subscribe None; Signal; SelectDone; MonitorDone; MonitorSend;
   PlayerReturn None].

Definition playerLeftBehind : state :=
  {| ctx := canceled;
     errs := [{| componentType := BLE; err := None |}];
     monitor := Finished;
     player := Sending {| componentType := VIDEO; err := None |};
     orchestrator := Returned APP (Some ContextCanceled) |}.

Lemma second_sender_blocks_forever_at_shutdown :
  run shutdown init = Some playerLeftBehind /\
  (errs playerLeftBehind = errs playerLeftBehind /\
   (forall ce, player playerLeftBehind = Sending ce ->
               player playerLeftBehind = Sending ce /\
               step PlayerSend playerLeftBehind = None) /\
   (forall ce, monitor playerLeftBehind = Sending ce ->
               monitor playerLeftBehind = Sending ce /\
               step MonitorSend playerLeftBehind = None)).
Proof.
  split; [ reflexivity | ].
  apply (second_sender_blocks_forever playerLeftBehind playerLeftBehind APP
           (Some ContextCanceled) []); reflexivity.
Defined.
